(** * OpenGLPractice7: a shallow embedding of [src/main.cpp]

    The program opens a window, uploads one pyramid mesh, compiles a
    vertex/fragment shader pair and then runs a render loop that animates the
    mesh.  This development embeds the program as Rocq functions:

    - C++ [float] is IEEE-754 binary32, modelled with the Standard Library's
      executable [SpecFloat] operations at precision 24 and [emax] 128;
    - [unsigned int] and [int] are [Z] with the conversions written out;
    - the windowing and graphics libraries are external: what they answer is
      read from an environment record [Env], what the program asks of them is
      recorded in a call trace and, for the bindings the program relies on,
      interpreted on a small model of the graphics context;
    - [std::sin] is the real sine (the roundings of the [double] computation
      of the clear colour are not modelled). *)

From Stdlib Require Import ZArith NArith QArith Qround Qabs Reals Lra Lia.
From Stdlib Require Import List String Ascii Bool.
From Stdlib Require Import Floats.SpecFloat.
Import ListNotations.

Local Open Scope Z_scope.

(** ** Binary32 arithmetic *)

Module F32.

Definition prec : Z := 24.
Definition emax : Z := 128.

Definition float : Type := spec_float.

Definition zero : float := S754_zero false.

(** Conversion of an integer to [float] (round to nearest even). *)
Definition of_Z (z : Z) : float := binary_normalize prec emax z 0 false.

Definition add : float -> float -> float := SFadd prec emax.
Definition sub : float -> float -> float := SFsub prec emax.
Definition mul : float -> float -> float := SFmul prec emax.
Definition div : float -> float -> float := SFdiv prec emax.
Definition abs : float -> float := SFabs.

(** [x >= y] of C++: false as soon as one side is a NaN. *)
Definition ge (x y : float) : bool := SFleb y x.

(** A decimal literal [num/den] with the [f] suffix: the binary32 number
    nearest to the quotient.  Numerator and denominator of every literal of
    the program are below [2^24], hence exact, so that the correctly rounded
    division is the correctly rounded literal. *)
Definition literal (num den : Z) : float := div (of_Z num) (of_Z den).

Definition valid (x : float) : bool := valid_binary prec emax x.

(** The exponent a number of magnitude below [2^e] is rounded at. *)
Definition fexp : Z -> Z := SpecFloat.fexp prec emax.

Definition is_finite (x : float) : bool :=
  match x with
  | S754_zero _ | S754_finite _ _ _ => true
  | _ => false
  end.

(** The exact value of a finite float, counted in units of [2^-149], the
    smallest positive binary32 number: an integer for every valid float. *)
Definition val (x : float) : Z :=
  match x with
  | S754_finite s m e => cond_Zopp s (Zpos m) * 2 ^ (e + 149)
  | _ => 0
  end.

Definition unit_den : positive := Eval vm_compute in (2 ^ 149)%positive.

(** The exact value as a rational number. *)
Definition to_Q (x : float) : Q := Qmake (val x) unit_den.

End F32.

(** ** Global variables of the program (lines 17-32) *)

Definition WIDTH : Z := 640.
Definition HEIGHT : Z := 480.

(** Conversions between [int] and [unsigned int]. *)
Definition to_unsigned (z : Z) : Z := z mod 2 ^ 32.
Definition to_int (z : Z) : Z :=
  let u := z mod 2 ^ 32 in if u <? 2 ^ 31 then u else u - 2 ^ 32.

(** IDs of the VAO, VBO, shader program and index buffer, and the uniform
    locations: [unsigned int] globals, zero-initialised. *)
Record Handles := mkHandles {
  vao : Z;
  vbo : Z;
  shader : Z;
  ibo : Z;
  uniformModel : Z;
  uniformProjection : Z
}.

Definition init_handles : Handles := mkHandles 0 0 0 0 0 0.

(** The animated values: the globals of lines 28-32 and the static local [i]
    of the render loop (line 265). *)
Record Anim := mkAnim {
  direction : bool;
  triOffset : F32.float;
  triMaxOffset : F32.float;
  triTranslationIncrement : F32.float;
  currentAngle : F32.float;
  phase_i : F32.float
}.

Definition init_anim : Anim :=
  mkAnim true F32.zero (F32.of_Z 1) (F32.literal 15 1000) F32.zero F32.zero.

(** ** The animation update of one frame (lines 277-294, 320-321) *)

(** Lines 277-284: the offset moves by one increment in the current
    direction. *)
Definition move_offset (a : Anim) : Anim :=
  mkAnim (direction a)
         (if direction a
          then F32.add (triOffset a) (triTranslationIncrement a)
          else F32.sub (triOffset a) (triTranslationIncrement a))
         (triMaxOffset a) (triTranslationIncrement a)
         (currentAngle a) (phase_i a).

(** The test of line 286, on the offset already moved. *)
Definition at_limit (a : Anim) : bool :=
  F32.ge (F32.abs (triOffset a)) (triMaxOffset a).

(** Lines 286-289. *)
Definition flip_direction (a : Anim) : Anim :=
  mkAnim (if at_limit a then negb (direction a) else direction a)
         (triOffset a) (triMaxOffset a) (triTranslationIncrement a)
         (currentAngle a) (phase_i a).

(** The test of line 291: [currentAngle >= 360], the [int] converted. *)
Definition angle_over (a : Anim) : bool :=
  F32.ge (currentAngle a) (F32.of_Z 360).

(** Lines 291-294. *)
Definition wrap_angle (a : Anim) : Anim :=
  mkAnim (direction a) (triOffset a) (triMaxOffset a)
         (triTranslationIncrement a)
         (if angle_over a
          then F32.sub (currentAngle a) (F32.of_Z 360)
          else currentAngle a)
         (phase_i a).

Definition phase_increment : F32.float := F32.literal 5 100000.
Definition angle_increment : F32.float := F32.literal 5 100.

(** Lines 320-321, the last statements of the loop body. *)
Definition advance_phase_and_angle (a : Anim) : Anim :=
  mkAnim (direction a) (triOffset a) (triMaxOffset a)
         (triTranslationIncrement a)
         (F32.add (currentAngle a) angle_increment)
         (F32.add (phase_i a) phase_increment).

(** What one iteration of the render loop does to the animated values. *)
Definition update_anim (a : Anim) : Anim :=
  advance_phase_and_angle (wrap_angle (flip_direction (move_offset a))).

Fixpoint frames_anim (n : nat) (a : Anim) : Anim :=
  match n with
  | O => a
  | S k => update_anim (frames_anim k a)
  end.

(** ** The external libraries *)

(** The symbolic constants the program passes to the graphics library. *)
Inductive GLenum :=
| GL_ARRAY_BUFFER | GL_ELEMENT_ARRAY_BUFFER | GL_STATIC_DRAW
| GL_FLOAT | GL_UNSIGNED_INT | GL_TRIANGLES
| GL_VERTEX_SHADER | GL_FRAGMENT_SHADER
| GL_COMPILE_STATUS | GL_LINK_STATUS | GL_VALIDATE_STATUS
| GL_DEPTH_TEST.

(** Their numeric values ([GLenum] is an [unsigned int]; line 135 prints
    one). *)
Definition GLenum_value (e : GLenum) : Z :=
  match e with
  | GL_ARRAY_BUFFER => 34962 | GL_ELEMENT_ARRAY_BUFFER => 34963
  | GL_STATIC_DRAW => 35044
  | GL_FLOAT => 5126 | GL_UNSIGNED_INT => 5125 | GL_TRIANGLES => 4
  | GL_VERTEX_SHADER => 35633 | GL_FRAGMENT_SHADER => 35632
  | GL_COMPILE_STATUS => 35713 | GL_LINK_STATUS => 35714
  | GL_VALIDATE_STATUS => 35715
  | GL_DEPTH_TEST => 2929
  end.

Definition GL_COLOR_BUFFER_BIT : Z := 16384.
Definition GL_DEPTH_BUFFER_BIT : Z := 256.
Definition GLEW_OK : Z := 0.

Inductive GLFWhint :=
| GLFW_CONTEXT_VERSION_MAJOR | GLFW_CONTEXT_VERSION_MINOR
| GLFW_OPENGL_PROFILE | GLFW_OPENGL_FORWARD_COMPAT.

Definition GLFW_OPENGL_CORE_PROFILE : Z := 204801.

Definition vec3 : Type := F32.float * F32.float * F32.float.

(** A [glm::mat4], kept as the expression that built it. *)
Inductive mat4 :=
| mat4_diag (d : F32.float)
| perspective (fovy aspect zNear zFar : F32.float)
| scale (m : mat4) (v : vec3)
| translate (m : mat4) (v : vec3)
| rotate (m : mat4) (angle : F32.float) (axis : vec3).

(** The contents handed to [glBufferData]. *)
Inductive Payload :=
| UIntData (l : list Z)
| FloatData (l : list F32.float).

Definition sizeof_payload (p : Payload) : Z :=
  match p with
  | UIntData l => 4 * Z.of_nat (List.length l)
  | FloatData l => 4 * Z.of_nat (List.length l)
  end.

(** The calls the program makes, with their arguments. *)
Inductive Call :=
| glfwInit
| glfwTerminate
| glfwWindowHint (hint : GLFWhint) (value : Z)
| glfwCreateWindow (width height : Z) (title : string)
| glfwGetFramebufferSize (window : Z)
| glfwMakeContextCurrent (window : Z)
| set_glewExperimental (b : bool)
| glewInit
| glfwWindowShouldClose (window : Z)
| glfwGetWindowSize (window : Z)
| glfwPollEvents
| glfwSwapBuffers (window : Z)
| glfwDestroyWindow (window : Z)
| sleep_for_microseconds (n : Z)
| glEnable (cap : GLenum)
| glViewport (x y width height : Z)
| glGenVertexArrays (n : Z)
| glBindVertexArray (array : Z)
| glGenBuffers (n : Z)
| glBindBuffer (target : GLenum) (buffer : Z)
| glBufferData (target : GLenum) (size : Z) (data : Payload) (usage : GLenum)
| glVertexAttribPointer (index size : Z) (type : GLenum) (normalized : bool)
                        (stride pointer : Z)
| glEnableVertexAttribArray (index : Z)
| glCreateShader (type : GLenum)
| glShaderSource (sh count : Z) (code : string) (length : Z)
| glCompileShader (sh : Z)
| glGetShaderiv (sh : Z) (pname : GLenum)
| glGetShaderInfoLog (sh bufSize : Z)
| glAttachShader (program sh : Z)
| glCreateProgram
| glLinkProgram (program : Z)
| glValidateProgram (program : Z)
| glGetProgramiv (program : Z) (pname : GLenum)
| glGetProgramInfoLog (program bufSize : Z)
| glGetUniformLocation (program : Z) (name : string)
| glClearColor (r g b : R) (a : F32.float)
| glClear (mask : Z)
| glUseProgram (program : Z)
| glUniformMatrix4fv (location count : Z) (transpose : bool) (value : mat4)
| glDrawElements (mode : GLenum) (count : Z) (type : GLenum) (indices : Z).

(** What the libraries answer.  Nothing is assumed about the answers. *)
Record Env := mkEnv {
  glfwInit_result : Z;
  glfwCreateWindow_result : Z;          (* the window pointer, 0 for nullptr *)
  framebuffer_size : Z * Z;
  glewInit_result : Z;
  window_size : nat -> Z * Z;           (* asked once per frame *)
  frames_until_close : nat;             (* frames before the close request *)
  gen_vertex_array : Z;                 (* line 81 *)
  gen_index_buffer : Z;                 (* line 85 *)
  gen_vertex_buffer : Z;                (* line 90 *)
  create_shader : GLenum -> Z;
  compile_status : GLenum -> Z;
  shader_info_log : GLenum -> string;
  create_program : Z;
  link_status : Z;
  link_info_log : string;
  validate_status : Z;
  validate_info_log : string;
  uniform_location : string -> Z
}.

(** ** The part of the graphics context the program relies on

    The element-array binding belongs to the bound vertex array object;
    in the core profile the program asks for (lines 200-205) there is no
    such binding while no vertex array object is bound. *)
Record Context := mkContext {
  vertex_array_binding : Z;
  array_buffer_binding : Z;
  vao_element_buffer : Z -> Z;
  buffer_store : Z -> option Payload;
  attached_shaders : list (Z * Z);      (* (program, shader), latest first *)
  current_program : Z;
  drawn : list (GLenum * list Z)        (* draws submitted, latest first *)
}.

Definition init_context : Context :=
  mkContext 0 0 (fun _ => 0) (fun _ => None) [] 0 [].

Definition element_array_buffer_binding (c : Context) : Z :=
  if vertex_array_binding c =? 0 then 0
  else vao_element_buffer c (vertex_array_binding c).

Definition update {A : Type} (f : Z -> A) (k : Z) (v : A) : Z -> A :=
  fun k' => if k' =? k then v else f k'.

Definition buffer_bound_at (target : GLenum) (c : Context) : Z :=
  match target with
  | GL_ARRAY_BUFFER => array_buffer_binding c
  | GL_ELEMENT_ARRAY_BUFFER => element_array_buffer_binding c
  | _ => 0
  end.

(** The indices an indexed draw of [count] elements reads. *)
Definition fetch_indices (count : Z) (c : Context) : list Z :=
  match buffer_store c (element_array_buffer_binding c) with
  | Some (UIntData l) =>
      if element_array_buffer_binding c =? 0 then []
      else firstn (Z.to_nat count) l
  | _ => []
  end.

(** The effect of a call on the modelled part of the context. *)
Definition exec (call : Call) (c : Context) : Context :=
  match call with
  | glBindVertexArray v =>
      mkContext v (array_buffer_binding c) (vao_element_buffer c)
                (buffer_store c) (attached_shaders c) (current_program c)
                (drawn c)
  | glBindBuffer target b =>
      mkContext (vertex_array_binding c)
                (match target with
                 | GL_ARRAY_BUFFER => b
                 | _ => array_buffer_binding c
                 end)
                (match target with
                 | GL_ELEMENT_ARRAY_BUFFER =>
                     if vertex_array_binding c =? 0 then vao_element_buffer c
                     else update (vao_element_buffer c)
                                 (vertex_array_binding c) b
                 | _ => vao_element_buffer c
                 end)
                (buffer_store c) (attached_shaders c) (current_program c)
                (drawn c)
  | glBufferData target _ data _ =>
      mkContext (vertex_array_binding c) (array_buffer_binding c)
                (vao_element_buffer c)
                (if buffer_bound_at target c =? 0 then buffer_store c
                 else update (buffer_store c) (buffer_bound_at target c)
                             (Some data))
                (attached_shaders c) (current_program c) (drawn c)
  | glAttachShader p s =>
      mkContext (vertex_array_binding c) (array_buffer_binding c)
                (vao_element_buffer c) (buffer_store c)
                ((p, s) :: attached_shaders c) (current_program c)
                (drawn c)
  | glUseProgram p =>
      mkContext (vertex_array_binding c) (array_buffer_binding c)
                (vao_element_buffer c) (buffer_store c)
                (attached_shaders c) p (drawn c)
  | glDrawElements mode count _ _ =>
      mkContext (vertex_array_binding c) (array_buffer_binding c)
                (vao_element_buffer c) (buffer_store c)
                (attached_shaders c) (current_program c)
                ((mode, fetch_indices count c) :: drawn c)
  | _ => c
  end.

(** ** The state of a run *)

(** What is written to [std::cout], one item per [<<]. *)
Inductive OutItem :=
| OStr (s : string)
| OChar (c : ascii)
| OUnsigned (n : Z)
| OFloat (x : F32.float).

Record World := mkWorld {
  handles : Handles;
  anim : Anim;
  context : Context;
  trace : list Call;                    (* latest call first *)
  out : list OutItem                    (* latest item first *)
}.

Definition init_world : World :=
  mkWorld init_handles init_anim init_context [] [].

(** Statements thread the world and may yield a value. *)
Definition Prog (A : Type) : Type := World -> A * World.

Definition ret {A : Type} (x : A) : Prog A := fun w => (x, w).

Definition bind {A B : Type} (m : Prog A) (k : A -> Prog B) : Prog B :=
  fun w => k (fst (m w)) (snd (m w)).

Declare Scope prog_scope.
Delimit Scope prog_scope with prog.
Notation "x <- m ;; k" := (bind m (fun x => k))
  (at level 61, m at next level, right associativity) : prog_scope.
Notation "m ;; k" := (bind m (fun _ => k))
  (at level 61, right associativity) : prog_scope.
Local Open Scope prog_scope.

Definition call (c : Call) : Prog unit :=
  fun w => (tt, mkWorld (handles w) (anim w) (exec c (context w))
                        (c :: trace w) (out w)).

Definition print (o : OutItem) : Prog unit :=
  fun w => (tt, mkWorld (handles w) (anim w) (context w) (trace w)
                        (o :: out w)).

Definition get_handles : Prog Handles := fun w => (handles w, w).
Definition get_anim : Prog Anim := fun w => (anim w, w).

Definition modify_handles (f : Handles -> Handles) : Prog unit :=
  fun w => (tt, mkWorld (f (handles w)) (anim w) (context w) (trace w)
                        (out w)).

Definition modify_anim (f : Anim -> Anim) : Prog unit :=
  fun w => (tt, mkWorld (handles w) (f (anim w)) (context w) (trace w)
                        (out w)).

Definition set_vao (v : Z) (h : Handles) : Handles :=
  mkHandles v (vbo h) (shader h) (ibo h) (uniformModel h)
            (uniformProjection h).
Definition set_vbo (v : Z) (h : Handles) : Handles :=
  mkHandles (vao h) v (shader h) (ibo h) (uniformModel h)
            (uniformProjection h).
Definition set_shader (v : Z) (h : Handles) : Handles :=
  mkHandles (vao h) (vbo h) v (ibo h) (uniformModel h)
            (uniformProjection h).
Definition set_ibo (v : Z) (h : Handles) : Handles :=
  mkHandles (vao h) (vbo h) (shader h) v (uniformModel h)
            (uniformProjection h).
Definition set_uniformModel (v : Z) (h : Handles) : Handles :=
  mkHandles (vao h) (vbo h) (shader h) (ibo h) v (uniformProjection h).
Definition set_uniformProjection (v : Z) (h : Handles) : Handles :=
  mkHandles (vao h) (vbo h) (shader h) (ibo h) (uniformModel h) v.

Definition nl : string := String (ascii_of_nat 10) EmptyString.

(** ** The shader sources (lines 35-61) *)

Definition vertexShader : string :=
  "#version 330" ++ nl ++
  nl ++
  "layout (location = 0) in vec3 pos;" ++ nl ++
  "uniform mat4 model;" ++ nl ++
  "uniform mat4 projection;" ++ nl ++
  nl ++
  "out vec4 vertexColor;" ++ nl ++
  nl ++
  "void main()" ++ nl ++
  "{" ++ nl ++
  "   gl_Position = projection * model * vec4(pos.x, pos.y, pos.z, 1.0);" ++ nl ++
  "   vertexColor = vec4(clamp(pos, 0.0f, 1.0f), 1.0f);" ++ nl ++
  "}" ++ nl.

Definition fragmentShader : string :=
  "#version 330" ++ nl ++
  nl ++
  "in vec4 vertexColor;" ++ nl ++
  nl ++
  "out vec4 color;" ++ nl ++
  nl ++
  "void main()" ++ nl ++
  "{" ++ nl ++
  "   color = vertexColor;" ++ nl ++
  "}" ++ nl.

(** ** createTriangle (lines 63-108) *)

Definition indices : list Z :=
  [ 0; 3; 1;
    1; 3; 2;
    2; 3; 0;
    0; 1; 2 ].

Definition vertices : list F32.float :=
  map F32.of_Z
    [ -1; -1; 0;
       0; -1; 1;
       1; -1; 0;
       1;  1; 0 ].

Section Program.

Variable env : Env.

Definition createTriangle : Prog unit :=
  (* Generate and bind VAO *)
  call (glGenVertexArrays 1) ;;
  modify_handles (set_vao (to_unsigned (gen_vertex_array env))) ;;
  h <- get_handles ;;
  call (glBindVertexArray (vao h)) ;;
  (* Generate, bind, and buffer index array *)
  call (glGenBuffers 1) ;;
  modify_handles (set_ibo (to_unsigned (gen_index_buffer env))) ;;
  h <- get_handles ;;
  call (glBindBuffer GL_ELEMENT_ARRAY_BUFFER (ibo h)) ;;
  call (glBufferData GL_ELEMENT_ARRAY_BUFFER
                     (sizeof_payload (UIntData indices)) (UIntData indices)
                     GL_STATIC_DRAW) ;;
  (* Generate, bind, and buffer VBO *)
  call (glGenBuffers 1) ;;
  modify_handles (set_vbo (to_unsigned (gen_vertex_buffer env))) ;;
  h <- get_handles ;;
  call (glBindBuffer GL_ARRAY_BUFFER (vbo h)) ;;
  call (glBufferData GL_ARRAY_BUFFER
                     (sizeof_payload (FloatData vertices))
                     (FloatData vertices) GL_STATIC_DRAW) ;;
  call (glVertexAttribPointer 0 3 GL_FLOAT false 0 0) ;;
  call (glEnableVertexAttribArray 0) ;;
  call (glBindBuffer GL_ARRAY_BUFFER 0) ;;
  call (glBindBuffer GL_ELEMENT_ARRAY_BUFFER 0) ;;
  call (glBindVertexArray 0).

(** ** addShader (lines 110-141) *)

(** [glGetShaderInfoLog] and [glGetProgramInfoLog] write at most
    [bufSize] bytes, the terminating NUL included. *)
Definition read_info_log (bufSize : nat) (log : string) : string :=
  substring 0 (bufSize - 1) log.

Definition addShader (program : Z) (source : string) (type : GLenum)
  : Prog unit :=
  call (glCreateShader type) ;;
  let newShader := to_unsigned (create_shader env type) in
  let codeLength := to_int (Z.of_nat (String.length source)) in
  call (glShaderSource newShader 1 source codeLength) ;;
  call (glCompileShader newShader) ;;
  call (glGetShaderiv newShader GL_COMPILE_STATUS) ;;
  let result := compile_status env type in
  if result =? 0 then
    call (glGetShaderInfoLog newShader 1024) ;;
    let errorLog := read_info_log 1024 (shader_info_log env type) in
    print (OStr "Error compiling the ") ;;
    print (OUnsigned (GLenum_value type)) ;;
    print (OStr " shader: ") ;;
    print (OStr errorLog) ;;
    print (OChar (ascii_of_nat 10))
    (* return *)
  else
    (* Attach new shader to the program *)
    call (glAttachShader program newShader).

(** ** compileShaders (lines 143-184) *)

Definition compileShaders : Prog unit :=
  call glCreateProgram ;;
  modify_handles (set_shader (to_unsigned (create_program env))) ;;
  h <- get_handles ;;
  if shader h =? 0 then
    print (OStr ("Error creating shader program" ++ nl))
    (* return *)
  else
    addShader (shader h) vertexShader GL_VERTEX_SHADER ;;
    addShader (shader h) fragmentShader GL_FRAGMENT_SHADER ;;
    (* Creates executable on GPU using shaders *)
    call (glLinkProgram (shader h)) ;;
    call (glGetProgramiv (shader h) GL_LINK_STATUS) ;;
    let result := link_status env in
    if result =? 0 then
      call (glGetProgramInfoLog (shader h) 1024) ;;
      let errorLog := read_info_log 1024 (link_info_log env) in
      print (OStr "Error linking program: ") ;;
      print (OStr errorLog) ;;
      print (OChar (ascii_of_nat 10))
      (* return *)
    else
      (* Ensures that the shader was created correctly *)
      call (glValidateProgram (shader h)) ;;
      call (glGetProgramiv (shader h) GL_VALIDATE_STATUS) ;;
      let result := validate_status env in
      if result =? 0 then
        call (glGetProgramInfoLog (shader h) 1024) ;;
        let errorLog := read_info_log 1024 (validate_info_log env) in
        print (OStr "Error validating program: ") ;;
        print (OStr errorLog) ;;
        print (OChar (ascii_of_nat 10))
        (* return *)
      else
        call (glGetUniformLocation (shader h) "model") ;;
        modify_handles
          (set_uniformModel (to_unsigned (uniform_location env "model"))) ;;
        call (glGetUniformLocation (shader h) "projection") ;;
        modify_handles
          (set_uniformProjection
             (to_unsigned (uniform_location env "projection"))).

(** ** The render loop (lines 255-326) *)

(** The local variables of [main] that the loop reads and writes. *)
Record Locals := mkLocals {
  mainWindow : Z;
  bufferWidth : Z;
  bufferHeight : Z;
  model : mat4;
  projection : mat4
}.

Definition M_PI_float : F32.float := S754_finite false 13176795 (-22).

(** The real number a finite float stands for. *)
Definition to_R (x : F32.float) : R := (IZR (F32.val x) / 2 ^ 149)%R.

(** Lines 273-275: the clear colour for the colour phase [i]. *)
Definition clear_color (i : F32.float) : R * R * R :=
  (Rabs (sin (to_R i + 2 * PI / 3)),
   Rabs (sin (to_R i)),
   Rabs (sin (to_R i - 2 * PI / 3)))%R.

(** One iteration of the loop body; [k] counts the iterations done. *)
Definition frame (k : nat) (l : Locals) : Prog Locals :=
  (* Set window size *)
  call (glfwGetWindowSize (mainWindow l)) ;;
  let bufferWidth' := to_int (fst (window_size env k)) in
  let bufferHeight' := to_int (snd (window_size env k)) in
  call (glViewport 0 0 bufferWidth' bufferHeight') ;;
  (* Get/handle user input *)
  call glfwPollEvents ;;
  a <- get_anim ;;
  let '(r, g, b) := clear_color (phase_i a) in
  modify_anim move_offset ;;
  modify_anim flip_direction ;;
  modify_anim wrap_angle ;;
  (* Clear window *)
  call (glClearColor r g b (F32.of_Z 1)) ;;
  call (glClear (Z.lor GL_COLOR_BUFFER_BIT GL_DEPTH_BUFFER_BIT)) ;;
  h <- get_handles ;;
  call (glUseProgram (shader h)) ;;
  a <- get_anim ;;
  print (OFloat (currentAngle a)) ;;
  print (OChar (ascii_of_nat 10)) ;;
  let c := F32.literal 15 1000 in
  let model1 :=
    rotate (model l) (F32.div (F32.mul c M_PI_float) (F32.of_Z 2))
           (c, c, c) in
  let model2 :=
    translate model1
              (F32.div (triOffset a) (F32.of_Z 5), F32.zero, F32.zero) in
  call (glUniformMatrix4fv (to_int (uniformModel h)) 1 false model2) ;;
  call (glUniformMatrix4fv (to_int (uniformProjection h)) 1 false
                           (projection l)) ;;
  call (glBindVertexArray (vao h)) ;;
  call (glBindBuffer GL_ELEMENT_ARRAY_BUFFER (ibo h)) ;;
  call (glDrawElements GL_TRIANGLES 12 GL_UNSIGNED_INT 0) ;;
  call (glBindBuffer GL_ELEMENT_ARRAY_BUFFER 0) ;;
  call (glBindVertexArray 0) ;;
  call (glUseProgram 0) ;;
  call (sleep_for_microseconds 16667) ;;
  modify_anim advance_phase_and_angle ;;
  (* Swap display buffers *)
  call (glfwSwapBuffers (mainWindow l)) ;;
  ret (mkLocals (mainWindow l) bufferWidth' bufferHeight' model2
                (projection l)).

(** [n] more iterations, the window asking to be closed after them. *)
Fixpoint render_loop (n k : nat) (l : Locals) : Prog Locals :=
  call (glfwWindowShouldClose (mainWindow l)) ;;
  match n with
  | O => ret l
  | S n' => l' <- frame k l ;; render_loop n' (S k) l'
  end.

(** ** main (lines 186-332): the exit code of a run whose window is
    closed after [frames_until_close env] frames. *)
Definition main : Prog Z :=
  (* Initialize GLFW *)
  call glfwInit ;;
  if glfwInit_result env =? 0 then
    print (OStr ("GLFW failed to initialize" ++ nl)) ;;
    call glfwTerminate ;;
    ret 1
  else
    call (glfwWindowHint GLFW_CONTEXT_VERSION_MAJOR 3) ;;
    call (glfwWindowHint GLFW_CONTEXT_VERSION_MINOR 3) ;;
    call (glfwWindowHint GLFW_OPENGL_PROFILE GLFW_OPENGL_CORE_PROFILE) ;;
    call (glfwWindowHint GLFW_OPENGL_FORWARD_COMPAT 1) ;;
    (* Create main window *)
    call (glfwCreateWindow WIDTH HEIGHT "Perspective Projection Test") ;;
    let mainWindow := glfwCreateWindow_result env in
    if mainWindow =? 0 then
      print (OStr ("Could not create main GLFW window" ++ nl)) ;;
      call glfwTerminate ;;
      ret 1
    else
      (* Get buffer size information *)
      call (glfwGetFramebufferSize mainWindow) ;;
      let bufferWidth := to_int (fst (framebuffer_size env)) in
      let bufferHeight := to_int (snd (framebuffer_size env)) in
      (* Set context for GLEW to use *)
      call (glfwMakeContextCurrent mainWindow) ;;
      (* Allow modern extension features *)
      call (set_glewExperimental true) ;;
      (* Setup GLEW *)
      call glewInit ;;
      if glewInit_result env =? GLEW_OK then
        print (OStr ("Could not initialize GLEW" ++ nl)) ;;
        call (glfwDestroyWindow mainWindow) ;;
        call glfwTerminate ;;
        ret 1
      else
        call (glEnable GL_DEPTH_TEST) ;;
        call (glViewport 0 0 bufferWidth bufferHeight) ;;
        (* Create triangle and compile shaders *)
        createTriangle ;;
        compileShaders ;;
        let model0 := mat4_diag (F32.of_Z 1) in
        let projection :=
          perspective (F32.of_Z 45)
                      (F32.div (F32.of_Z bufferWidth)
                               (F32.of_Z bufferHeight))
                      (F32.literal 1 10) (F32.of_Z 300) in
        let model1 :=
          scale model0 (F32.of_Z 1, F32.of_Z 1, F32.of_Z 1) in
        let model2 :=
          translate model1 (F32.of_Z (-15), F32.of_Z (-10), F32.of_Z (-20)) in
        (* Main loop *)
        render_loop (frames_until_close env) 0
                    (mkLocals mainWindow bufferWidth bufferHeight model2
                              projection) ;;
        (* Delete main window *)
        call (glfwDestroyWindow mainWindow) ;;
        ret 0.

End Program.

(** * Notions used to state the properties *)

(** ** Environments to run the program in *)

(** Every library call succeeds, except that [glewInit] answers [glew];
    the window is closed after [frames] frames. *)
Definition sample_env (glew : Z) (frames : nat) : Env :=
  mkEnv 1 1 (640, 480) glew (fun _ => (640, 480)) frames
        1 1 2
        (fun t => match t with GL_VERTEX_SHADER => 2 | _ => 3 end)
        (fun _ => 1) (fun _ => EmptyString)
        1 1 EmptyString 1 EmptyString
        (fun s => if String.eqb s "model"%string then 0 else 1).

(** As [sample_env], with a vertex stage that does not compile and a
    program that does not link. *)
Definition failing_env : Env :=
  mkEnv 1 1 (640, 480) 1 (fun _ => (640, 480)) 2
        1 1 2
        (fun t => match t with GL_VERTEX_SHADER => 2 | _ => 3 end)
        (fun t => match t with GL_VERTEX_SHADER => 0 | _ => 1 end)
        (fun _ => "0:1(1): error: syntax error"%string)
        1 0 "error: linking with uncompiled shader"%string 1 EmptyString
        (fun s => if String.eqb s "model"%string then 0 else 1).

(** Local variables to start a render loop with. *)
Definition sample_locals : Locals :=
  mkLocals 1 640 480 (mat4_diag (F32.of_Z 1))
           (perspective (F32.of_Z 45) (F32.of_Z 1) (F32.literal 1 10)
                        (F32.of_Z 300)).

(** The names the library hands out are fresh: not 0, and the two buffers
    differ. *)
Definition sane_names (env : Env) : Prop :=
  to_unsigned (gen_vertex_array env) <> 0 /\
  to_unsigned (gen_index_buffer env) <> 0 /\
  to_unsigned (gen_index_buffer env) <> to_unsigned (gen_vertex_buffer env).

(** ** Reading a call trace *)

(** The locations of the uniform uploads of a trace. *)
Fixpoint uploads (t : list Call) : list Z :=
  match t with
  | [] => []
  | glUniformMatrix4fv location _ _ _ :: t' => location :: uploads t'
  | _ :: t' => uploads t'
  end.

(** The uniform names looked up in a trace. *)
Fixpoint lookups (t : list Call) : list string :=
  match t with
  | [] => []
  | glGetUniformLocation _ name :: t' => name :: lookups t'
  | _ :: t' => lookups t'
  end.

(** What [addShader] leaves alone. *)
Definition untouched (w w' : World) : Prop :=
  handles w' = handles w /\ anim w' = anim w /\
  vertex_array_binding (context w') = vertex_array_binding (context w) /\
  array_buffer_binding (context w') = array_buffer_binding (context w) /\
  vao_element_buffer (context w') = vao_element_buffer (context w) /\
  buffer_store (context w') = buffer_store (context w) /\
  drawn (context w') = drawn (context w) /\
  uploads (trace w') = uploads (trace w) /\
  lookups (trace w') = lookups (trace w).

(** ** The mesh *)






(** ** The oscillating offset *)

(** The exact values of the offset, its limit and its increment. *)
Definition offset_Q (a : Anim) : Q := F32.to_Q (triOffset a).
Definition limit_Q : Q := F32.to_Q (triMaxOffset init_anim).
Definition step_Q : Q := F32.to_Q (triTranslationIncrement init_anim).

(** The offset and its direction evolve on their own: the animated values
    with the angle and the phase forgotten, and their update. *)
Definition offset_part (a : Anim) : Anim :=
  mkAnim (direction a) (triOffset a) (triMaxOffset a)
         (triTranslationIncrement a) F32.zero F32.zero.

Definition offset_step (a : Anim) : Anim :=
  offset_part (flip_direction (move_offset a)).

(** The direction changes on the frame that starts from [a]. *)
Definition flips (a : Anim) : bool :=
  negb (Bool.eqb (direction (update_anim a)) (direction a)).

(** A property of the states met in the first [n] steps of an orbit,
    numbered from [k]. *)
Fixpoint check_orbit {A : Type} (f : A -> A) (P : nat -> A -> bool)
         (n k : nat) (x : A) : bool :=
  match n with
  | O => true
  | S n' => P k x && check_orbit f P n' (S k) (f x)
  end.

(** The offset stays within one increment of the limit. *)
Definition within_overshoot (a : Anim) : bool :=
  Qle_bool (Qabs (offset_Q a)) (limit_Q + step_Q)%Q.

(** The frame from [a] flips the direction exactly when the offset it
    produces has reached the limit. *)
Definition flips_at_limit (a : Anim) : bool :=
  Bool.eqb (flips a) (Qle_bool limit_Q (Qabs (offset_Q (update_anim a)))).

(** Frame [n + 1] flips the direction exactly when [n + 1] is 67 modulo
    134. *)
Definition flips_on_schedule (n : nat) (a : Anim) : bool :=
  Bool.eqb (flips a) (Nat.eqb (S n mod 134) 67).

(** Every 134th state is within a millionth of the centre. *)
Definition centred_on_schedule (n : nat) (a : Anim) : bool :=
  if Nat.eqb (n mod 134) 0
  then Qle_bool (Qabs (offset_Q a)) (1 # 1000000)%Q
  else true.

(** ** The angle *)

Definition angle_limit : F32.float := F32.of_Z 360.

(** The angle after the test of line 291, and after the whole frame. *)
Definition angle_wrapped (x : F32.float) : F32.float :=
  if F32.ge x angle_limit then F32.sub x angle_limit else x.

Definition angle_step (x : F32.float) : F32.float :=
  F32.add (angle_wrapped x) angle_increment.

(** One rounding unit of the binade [[256, 512)], in units of [2^-149]:
    it is [2^-15]. *)
Definition angle_ulp : Z := 2 ^ 134.

Definition angle_bound : Z :=
  F32.val angle_limit + F32.val angle_increment + angle_ulp.

(** Positive, finite and well formed. *)
Definition posfin (x : F32.float) : Prop :=
  exists m e, x = S754_finite false m e /\
              bounded F32.prec F32.emax m e = true.

(** What the stored angle is at the start of every frame. *)
Definition angle_ok (x : F32.float) : Prop :=
  x = S754_zero false \/ (posfin x /\ F32.val x <= angle_bound).


(** ** Counting calls and reading the output *)

(** How many calls of a trace satisfy [p]. *)
Definition count (p : Call -> bool) (t : list Call) : nat :=
  List.length (filter p t).

Definition is_glfwTerminate (c : Call) : bool :=
  match c with glfwTerminate => true | _ => false end.

Definition is_close_query (c : Call) : bool :=
  match c with glfwWindowShouldClose _ => true | _ => false end.

Definition is_poll (c : Call) : bool :=
  match c with glfwPollEvents => true | _ => false end.

Definition is_swap (c : Call) : bool :=
  match c with glfwSwapBuffers _ => true | _ => false end.

Definition is_sleep (c : Call) : bool :=
  match c with sleep_for_microseconds n => n =? 16667 | _ => false end.

Definition is_draw (c : Call) : bool :=
  match c with glDrawElements _ _ _ _ => true | _ => false end.

Definition is_validate (c : Call) : bool :=
  match c with glValidateProgram _ => true | _ => false end.

(** The calls into the graphics library proper (the [gl...] functions). *)
Definition is_graphics_call (c : Call) : bool :=
  match c with
  | glfwInit | glfwTerminate | glfwWindowHint _ _ | glfwCreateWindow _ _ _
  | glfwGetFramebufferSize _ | glfwMakeContextCurrent _
  | set_glewExperimental _ | glewInit | glfwWindowShouldClose _
  | glfwGetWindowSize _ | glfwPollEvents | glfwSwapBuffers _
  | glfwDestroyWindow _ | sleep_for_microseconds _ => false
  | _ => true
  end.


(** What [addShader] adds to the attached stages of [program]. *)
Definition stage_attached (env : Env) (program : Z) (type : GLenum)
  : list (Z * Z) :=
  if compile_status env type =? 0 then []
  else [(program, to_unsigned (create_shader env type))].

(** The initial world with another angle and another colour phase. *)
Definition spun_world : World :=
  mkWorld init_handles
          (mkAnim true F32.zero (F32.of_Z 1) (F32.literal 15 1000)
                  (F32.of_Z 123) (F32.of_Z 7))
          init_context [] [].


(** Both stages compile, the program does not link. *)
Definition link_failing_env : Env :=
  mkEnv 1 1 (640, 480) 1 (fun _ => (640, 480)) 2
        1 1 2
        (fun t => match t with GL_VERTEX_SHADER => 2 | _ => 3 end)
        (fun _ => 1) (fun _ => EmptyString)
        1 0 "error: no entry point"%string 1 EmptyString
        (fun s => if String.eqb s "model"%string then 0 else 1).



(** * Binary32 rounding

    What [SpecFloat]'s rounding does to a positive mantissa, derived from
    its definition: the facts about binary32 addition and subtraction that
    the properties of the angle and of the colour phase rest on. *)

Lemma fexp_eq e : F32.fexp e = Z.max (e - 24) (-149).
Proof. reflexivity. Qed.

Lemma digits2_pos_bounds m :
  2 ^ (Zpos (digits2_pos m) - 1) <= Zpos m < 2 ^ Zpos (digits2_pos m).
Proof.
  induction m as [m IH | m IH | ]; cbn [digits2_pos].
  - rewrite Pos2Z.inj_succ, (Pos2Z.inj_xI m).
    replace (Z.succ (Zpos (digits2_pos m)) - 1)
      with (Z.succ (Zpos (digits2_pos m) - 1)) by lia.
    rewrite !Z.pow_succ_r by lia. lia.
  - rewrite Pos2Z.inj_succ, (Pos2Z.inj_xO m).
    replace (Z.succ (Zpos (digits2_pos m)) - 1)
      with (Z.succ (Zpos (digits2_pos m) - 1)) by lia.
    rewrite !Z.pow_succ_r by lia. lia.
  - cbn. lia.
Qed.

Lemma digits2_pos_unique m k :
  2 ^ (k - 1) <= Zpos m < 2 ^ k -> Zpos (digits2_pos m) = k.
Proof.
  intros [Hl Hu]. pose proof (digits2_pos_bounds m) as [Dl Du].
  assert (0 < k). { destruct (Z_lt_le_dec 0 k); [assumption | ].
    rewrite Z.pow_neg_r in Hl by lia.
    destruct (Z.eq_dec k 0); [subst; cbn in Hu; lia | ].
    rewrite Z.pow_neg_r in Hu by lia. lia. }
  assert (Zpos (digits2_pos m) - 1 < k).
  { apply (Z.pow_lt_mono_r_iff 2); lia. }
  assert (k - 1 < Zpos (digits2_pos m)).
  { apply (Z.pow_lt_mono_r_iff 2); lia. }
  lia.
Qed.

Lemma shr_1_m mrs : 0 <= shr_m mrs -> shr_m (shr_1 mrs) = shr_m mrs / 2.
Proof.
  destruct mrs as [m r s]. cbn [shr_m]. intros Hm.
  rewrite <- Z.div2_div.
  destruct m as [ | [p | p | ] | p]; try reflexivity; lia.
Qed.

Lemma pow2_xO n : 2 ^ Zpos n~0 = 2 ^ Zpos n * 2 ^ Zpos n.
Proof.
  rewrite (Pos2Z.inj_xO n), <- Z.pow_add_r by lia. f_equal; lia.
Qed.

Lemma pow2_xI n : 2 ^ Zpos n~1 = 2 * (2 ^ Zpos n * 2 ^ Zpos n).
Proof.
  rewrite (Pos2Z.inj_xI n), Z.pow_add_r, Z.pow_1_r by lia.
  change (2 * Zpos n) with (Zpos n~0). rewrite pow2_xO. lia.
Qed.

Lemma iter_pos_shr_m n : forall mrs,
  0 <= shr_m mrs ->
  shr_m (iter_pos shr_1 n mrs) = shr_m mrs / 2 ^ Zpos n.
Proof.
  induction n as [n IH | n IH | ]; intros mrs Hm; cbn [iter_pos].
  - assert (H1 : 0 <= shr_m (shr_1 mrs)).
    { rewrite shr_1_m by assumption. apply Z.div_pos; lia. }
    assert (H2 : 0 <= shr_m (iter_pos shr_1 n (shr_1 mrs))).
    { rewrite IH by assumption. apply Z.div_pos; lia. }
    rewrite IH, IH, shr_1_m by assumption.
    rewrite !Z.div_div by lia. now rewrite pow2_xI, Z.mul_assoc.
  - assert (H2 : 0 <= shr_m (iter_pos shr_1 n mrs)).
    { rewrite IH by assumption. apply Z.div_pos; lia. }
    rewrite IH, IH by assumption.
    rewrite Z.div_div by lia. now rewrite pow2_xO.
  - rewrite shr_1_m by assumption. reflexivity.
Qed.


Lemma round_nearest_even_cases m l :
  round_nearest_even m l = m \/ round_nearest_even m l = m + 1.
Proof.
  destruct l as [ | [ | | ]]; cbn; auto. destruct (Z.even m); auto.
Qed.

Lemma shr_fexp_keep m e :
  F32.fexp (Zdigits2 m + e) - e <= 0 ->
  shr_fexp F32.prec F32.emax m e loc_Exact
  = (Build_shr_record m false false, e).
Proof.
  intros H. unfold shr_fexp, shr. fold F32.fexp. cbn [shr_record_of_loc].
  destruct (F32.fexp (Zdigits2 m + e) - e); [reflexivity | lia | reflexivity].
Qed.

Lemma shr_fexp_shift m e n :
  F32.fexp (Zdigits2 m + e) - e = Zpos n ->
  shr_fexp F32.prec F32.emax m e loc_Exact
  = (iter_pos shr_1 n (Build_shr_record m false false), e + Zpos n).
Proof.
  intros H. unfold shr_fexp, shr. fold F32.fexp. cbn [shr_record_of_loc].
  rewrite H. reflexivity.
Qed.

(** A mantissa that is canonical for its exponent is kept as it is. *)
Lemma round_aux_canonical s M e :
  F32.fexp (Zpos (digits2_pos M) + e) = e -> e <= 104 ->
  binary_round_aux F32.prec F32.emax s (Zpos M) e loc_Exact
  = S754_finite s M e.
Proof.
  intros Hc He. unfold binary_round_aux.
  rewrite shr_fexp_keep by (cbn [Zdigits2]; lia).
  cbn [shr_m loc_of_shr_record round_nearest_even].
  rewrite shr_fexp_keep by (cbn [Zdigits2]; lia).
  cbn [shr_m].
  replace (e <=? F32.emax - F32.prec) with true; [reflexivity | ].
  symmetry. apply Z.leb_le. cbn. lia.
Qed.

Lemma bounded_canonical M e :
  F32.fexp (Zpos (digits2_pos M) + e) = e -> e <= 104 ->
  bounded F32.prec F32.emax M e = true.
Proof.
  intros Hc He. unfold bounded, canonical_mantissa. fold F32.fexp.
  rewrite Hc, Z.eqb_refl. apply Z.leb_le. cbn. lia.
Qed.

Lemma bounded_inv M e :
  bounded F32.prec F32.emax M e = true ->
  F32.fexp (Zpos (digits2_pos M) + e) = e /\ e <= 104.
Proof.
  unfold bounded, canonical_mantissa. fold F32.fexp.
  intros H. apply andb_true_iff in H as [H1 H2].
  apply Z.eqb_eq in H1. apply Z.leb_le in H2. cbn in H2. auto.
Qed.

(** Rounding a mantissa of more than 24 digits: the result is one of the
    two neighbours at the target exponent. *)
Lemma round_aux_long M e :
  let d := Zpos (digits2_pos M) in
  -149 <= e -> 24 < d -> d + e - 24 < 104 ->
  exists m' e',
    binary_round_aux F32.prec F32.emax false (Zpos M) e loc_Exact
    = S754_finite false m' e' /\
    bounded F32.prec F32.emax m' e' = true /\
    e <= e' /\
    Z.abs (Zpos m' * 2 ^ (e' - e) - Zpos M) <= 2 ^ (d - 24).
Proof.
  intros d He Hd Hmax.
  destruct (d - 24) as [ | n | n] eqn:Hn; try lia.
  assert (Hshift : F32.fexp (Zdigits2 (Zpos M) + e) - e = Zpos n).
  { cbn [Zdigits2]. fold d. rewrite fexp_eq. lia. }
  unfold binary_round_aux. rewrite (shr_fexp_shift _ _ _ Hshift).
  set (mrs := iter_pos shr_1 n _).
  assert (Hm1 : shr_m mrs = Zpos M / 2 ^ Zpos n).
  { unfold mrs. rewrite iter_pos_shr_m; cbn [shr_m]; [reflexivity | lia]. }
  pose proof (digits2_pos_bounds M) as [Dl Du]. fold d in Dl, Du.
  assert (Hpow : 2 ^ d = 2 ^ Zpos n * 2 ^ 24).
  { rewrite <- Z.pow_add_r by lia. f_equal; lia. }
  assert (Hpow' : 2 ^ (d - 1) = 2 ^ Zpos n * 2 ^ 23).
  { rewrite <- Z.pow_add_r by lia. f_equal; lia. }
  assert (Hn0 : 0 < 2 ^ Zpos n) by (apply Z.pow_pos_nonneg; lia).
  assert (Hlo : 2 ^ 23 <= shr_m mrs).
  { rewrite Hm1. apply Z.div_le_lower_bound; lia. }
  assert (Hhi : shr_m mrs < 2 ^ 24).
  { rewrite Hm1. apply Z.div_lt_upper_bound; lia. }
  assert (Hdm : 2 ^ Zpos n * shr_m mrs <= Zpos M < 2 ^ Zpos n * (shr_m mrs + 1)).
  { rewrite Hm1. pose proof (Z.mul_div_le (Zpos M) (2 ^ Zpos n) Hn0).
    pose proof (Z.mul_succ_div_gt (Zpos M) (2 ^ Zpos n) Hn0). lia. }
  set (m2 := round_nearest_even (shr_m mrs) (loc_of_shr_record mrs)).
  assert (Hm2 : m2 = shr_m mrs \/ m2 = shr_m mrs + 1)
    by apply round_nearest_even_cases.
  clearbody m2. generalize dependent (shr_m mrs). intros m1 _ Hlo Hhi Hdm Hm2.
  clear mrs.
  change (2 ^ 23) with 8388608 in *. change (2 ^ 24) with 16777216 in *.
  destruct (Z.eq_dec m2 16777216) as [-> | Hne].
  - (* the carry reaches the next binade *)
    rewrite (shr_fexp_shift _ _ 1).
    2:{ cbn [Zdigits2 digits2_pos Pos.succ]. rewrite fexp_eq. lia. }
    cbn [iter_pos shr_1 shr_m].
    replace (e + Zpos n + 1 <=? F32.emax - F32.prec) with true
      by (symmetry; apply Z.leb_le; cbn; lia).
    exists 8388608%positive, (e + Zpos n + 1). repeat split.
    + apply bounded_canonical; [ | lia]. cbn [digits2_pos Pos.succ].
      rewrite fexp_eq. lia.
    + lia.
    + replace (e + Zpos n + 1 - e) with (Zpos n + 1) by lia.
      rewrite Z.pow_add_r, Z.pow_1_r by lia. lia.
  - destruct m2 as [ | p | p]; try lia.
    assert (Hdp : Zpos (digits2_pos p) = 24).
    { apply digits2_pos_unique. change (2 ^ (24 - 1)) with 8388608.
      change (2 ^ 24) with 16777216. lia. }
    rewrite shr_fexp_keep.
    2:{ cbn [Zdigits2]. rewrite Hdp, fexp_eq. lia. }
    cbn [shr_m].
    replace (e + Zpos n <=? F32.emax - F32.prec) with true
      by (symmetry; apply Z.leb_le; cbn; lia).
    exists p, (e + Zpos n). repeat split.
    + apply bounded_canonical; [ | lia]. rewrite Hdp, fexp_eq. lia.
    + lia.
    + replace (e + Zpos n - e) with (Zpos n) by lia. lia.
Qed.


Lemma pos_iter_xO m d : Zpos (Pos.iter xO m d) = Zpos m * 2 ^ Zpos d.
Proof.
  induction d as [ | d IH] using Pos.peano_ind.
  - cbn. lia.
  - rewrite Pos.iter_succ, Pos2Z.inj_xO, IH, Pos2Z.inj_succ, Z.pow_succ_r by lia.
    lia.
Qed.

Lemma shl_align_fst m e e' :
  e' <= e -> Zpos (fst (shl_align m e e')) = Zpos m * 2 ^ (e - e').
Proof.
  intros H. unfold shl_align.
  destruct (e' - e) as [ | d | d] eqn:Hd; try lia; cbn [fst].
  - replace (e - e') with 0 by lia. cbn. lia.
  - rewrite pos_iter_xO. f_equal. f_equal. lia.
Qed.

Lemma shl_align_snd m e e' : e' <= e -> snd (shl_align m e e') = e'.
Proof.
  intros H. unfold shl_align.
  destruct (e' - e) as [ | d | d] eqn:Hd; try lia; cbn [snd]; lia.
Qed.

Lemma shl_align_keep m e e' : e <= e' -> shl_align m e e' = (m, e).
Proof.
  intros H. unfold shl_align.
  destruct (e' - e) as [ | d | d] eqn:Hd; try lia; reflexivity.
Qed.

Lemma digits2_pos_scaled m k p :
  0 <= k -> Zpos p = Zpos m * 2 ^ k ->
  Zpos (digits2_pos p) = Zpos (digits2_pos m) + k.
Proof.
  intros Hk Hp. apply digits2_pos_unique. rewrite Hp.
  pose proof (digits2_pos_bounds m) as [Dl Du].
  replace (Zpos (digits2_pos m) + k - 1) with (Zpos (digits2_pos m) - 1 + k)
    by lia.
  rewrite !Z.pow_add_r by lia.
  assert (0 < 2 ^ k) by (apply Z.pow_pos_nonneg; lia). nia.
Qed.

(** [binary_round] on a positive mantissa: the result is finite, within one
    unit of the target exponent of the exact value, and exact when the
    mantissa has at most 24 digits. *)
Lemma binary_round_spec M e :
  let d := Zpos (digits2_pos M) in
  -149 <= e -> d + e <= 127 ->
  exists m' e',
    binary_round F32.prec F32.emax false M e = S754_finite false m' e' /\
    bounded F32.prec F32.emax m' e' = true /\
    Z.abs (Zpos m' * 2 ^ (e' + 149) - Zpos M * 2 ^ (e + 149))
    <= 2 ^ (F32.fexp (d + e) + 149) /\
    (d <= 24 -> Zpos m' * 2 ^ (e' + 149) = Zpos M * 2 ^ (e + 149)).
Proof.
  intros d He Hd. unfold binary_round. fold F32.fexp. fold d.
  assert (HE : F32.fexp (d + e) = Z.max (d + e - 24) (-149)) by apply fexp_eq.
  assert (Hpos : 0 < 2 ^ (F32.fexp (d + e) + 149))
    by (apply Z.pow_pos_nonneg; lia).
  destruct (Z_lt_le_dec (F32.fexp (d + e)) e) as [Hlt | Hge].
  - (* the mantissa is short: it is shifted left, exactly *)
    pose proof (shl_align_fst M e (F32.fexp (d + e)) ltac:(lia)) as Hf.
    pose proof (shl_align_snd M e (F32.fexp (d + e)) ltac:(lia)) as Hs.
    destruct (shl_align M e (F32.fexp (d + e))) as [mz ez].
    cbn [fst snd] in Hf, Hs. subst ez.
    assert (Hdz : Zpos (digits2_pos mz) = d + (e - F32.fexp (d + e))).
    { apply digits2_pos_scaled with (m := M); [lia | exact Hf]. }
    assert (Hc : F32.fexp (Zpos (digits2_pos mz) + F32.fexp (d + e)) = F32.fexp (d + e)).
    { rewrite Hdz. f_equal. lia. }
    rewrite round_aux_canonical by (try exact Hc; lia).
    exists mz, (F32.fexp (d + e)).
    assert (Hv : Zpos mz * 2 ^ (F32.fexp (d + e) + 149) = Zpos M * 2 ^ (e + 149)).
    { rewrite Hf, <- Z.mul_assoc, <- Z.pow_add_r by lia. f_equal. f_equal. lia. }
    split; [reflexivity | ]. split; [apply bounded_canonical; [exact Hc | lia] | ].
    rewrite Hv, Z.sub_diag. cbn [Z.abs]. split; [lia | auto].
  - rewrite shl_align_keep by assumption.
    destruct (Z.eq_dec (F32.fexp (d + e)) e) as [Heq | Hne].
    + rewrite round_aux_canonical by (try exact Heq; lia).
      exists M, e. split; [reflexivity | ].
      split; [apply bounded_canonical; [exact Heq | lia] | ].
      rewrite Z.sub_diag. cbn [Z.abs]. split; [lia | auto].
    + destruct (round_aux_long M e He ltac:(fold d; lia) ltac:(fold d; lia))
        as (m' & e' & Hr & Hb & Hee & Habs).
      fold d in Habs.
      exists m', e'. split; [exact Hr | ]. split; [exact Hb | ].
      split; [ | lia].
      replace (F32.fexp (d + e) + 149) with ((d - 24) + (e + 149)) by lia.
      replace (e' + 149) with ((e' - e) + (e + 149)) by lia.
      assert (24 < d) by lia.
      rewrite (Z.pow_add_r 2 (d - 24)), (Z.pow_add_r 2 (e' - e)) by lia.
      rewrite Z.mul_assoc, <- Z.mul_sub_distr_r, Z.abs_mul.
      assert (0 < 2 ^ (e + 149)) by (apply Z.pow_pos_nonneg; lia).
      rewrite (Z.abs_eq (2 ^ (e + 149))) by lia.
      apply Z.mul_le_mono_nonneg_r; lia.
Qed.


Lemma bounded_range m e :
  bounded F32.prec F32.emax m e = true ->
  -149 <= e <= 104 /\ Zpos (digits2_pos m) <= 24.
Proof.
  intros H. apply bounded_inv in H as [Hc He]. rewrite fexp_eq in Hc. lia.
Qed.

Lemma fexp_mono a b : a <= b -> F32.fexp a <= F32.fexp b.
Proof. rewrite !fexp_eq. lia. Qed.

(** The sum of two positive floats. *)
Lemma add_pos_spec mx ex my ey k :
  bounded F32.prec F32.emax mx ex = true ->
  bounded F32.prec F32.emax my ey = true ->
  Zpos mx * 2 ^ (ex + 149) + Zpos my * 2 ^ (ey + 149) < 2 ^ (k + 149) ->
  k <= 127 ->
  exists m e,
    F32.add (S754_finite false mx ex) (S754_finite false my ey)
    = S754_finite false m e /\
    bounded F32.prec F32.emax m e = true /\
    Z.abs (Zpos m * 2 ^ (e + 149)
           - (Zpos mx * 2 ^ (ex + 149) + Zpos my * 2 ^ (ey + 149)))
    <= 2 ^ (F32.fexp k + 149).
Proof.
  intros Hx Hy HV Hk.
  apply bounded_range in Hx as [Hex _]. apply bounded_range in Hy as [Hey _].
  unfold F32.add, SFadd. cbn [cond_Zopp]. set (ez := Z.min ex ey).
  pose proof (shl_align_fst mx ex ez ltac:(lia)) as Hax.
  pose proof (shl_align_fst my ey ez ltac:(lia)) as Hay.
  set (ax := fst (shl_align mx ex ez)) in *.
  set (ay := fst (shl_align my ey ez)) in *.
  cbn [Z.add binary_normalize].
  assert (Hsum : Zpos (ax + ay) * 2 ^ (ez + 149)
                 = Zpos mx * 2 ^ (ex + 149) + Zpos my * 2 ^ (ey + 149)).
  { rewrite Pos2Z.inj_add, Hax, Hay, Z.mul_add_distr_r.
    rewrite <- !Z.mul_assoc, <- !Z.pow_add_r by lia.
    do 2 (f_equal; try (f_equal; f_equal; lia)). }
  assert (Hk0 : 0 <= k + 149).
  { destruct (Z_lt_le_dec (k + 149) 0) as [Hneg | ]; [ | assumption].
    rewrite (Z.pow_neg_r 2 (k + 149)) in HV by assumption.
    assert (0 < 2 ^ (ex + 149)) by (apply Z.pow_pos_nonneg; lia).
    assert (0 < 2 ^ (ey + 149)) by (apply Z.pow_pos_nonneg; lia). nia. }
  assert (Hds : Zpos (digits2_pos (ax + ay)) + ez <= k).
  { pose proof (digits2_pos_bounds (ax + ay)) as [Dl _].
    assert (2 ^ (Zpos (digits2_pos (ax + ay)) - 1 + (ez + 149))
            < 2 ^ (k + 149)).
    { rewrite Z.pow_add_r by lia. rewrite <- Hsum in HV.
      assert (0 < 2 ^ (ez + 149)) by (apply Z.pow_pos_nonneg; lia). nia. }
    apply Z.pow_lt_mono_r_iff in H; lia. }
  destruct (binary_round_spec (ax + ay) ez ltac:(lia) ltac:(lia))
    as (m & e & Hr & Hb & Habs & _).
  exists m, e. split; [exact Hr | ]. split; [exact Hb | ].
  rewrite <- Hsum. etransitivity; [exact Habs | ].
  apply Z.pow_le_mono_r; [lia | ].
  pose proof (fexp_mono _ _ Hds). lia.
Qed.

(** The difference of two positive floats of one exponent is exact. *)
Lemma sub_same_exponent mx my e :
  bounded F32.prec F32.emax mx e = true ->
  (my <= mx)%positive -> e <= 100 ->
  let r := F32.sub (S754_finite false mx e) (S754_finite false my e) in
  F32.val r = Zpos mx * 2 ^ (e + 149) - Zpos my * 2 ^ (e + 149) /\
  (r = S754_zero false \/
   exists m' e', r = S754_finite false m' e' /\
                 bounded F32.prec F32.emax m' e' = true).
Proof.
  intros Hx Hle He r. apply bounded_range in Hx as [Hex Hdx].
  unfold r, F32.sub, SFsub. cbn [cond_Zopp]. rewrite Z.min_id.
  rewrite !shl_align_keep by lia. cbn [fst].
  destruct (Zpos mx - Zpos my) as [ | D | D] eqn:HD; try lia;
    cbn [binary_normalize].
  - split; [cbn [F32.val]; lia | auto].
  - assert (HdD : Zpos (digits2_pos D) <= 24).
    { pose proof (digits2_pos_bounds D) as [Dl _].
      pose proof (digits2_pos_bounds mx) as [_ Du].
      assert (2 ^ (Zpos (digits2_pos D) - 1) < 2 ^ Zpos (digits2_pos mx))
        by lia.
      apply Z.pow_lt_mono_r_iff in H; lia. }
    destruct (binary_round_spec D e ltac:(lia) ltac:(lia))
      as (m' & e' & Hr & Hb & _ & Hexact).
    rewrite Hr. cbn [F32.val cond_Zopp]. split.
    + rewrite Hexact by assumption. lia.
    + right. exists m', e'. auto.
Qed.

Lemma leb_pos_finite m1 e1 m2 e2 :
  SFleb (S754_finite false m1 e1) (S754_finite false m2 e2) = true
  <-> e1 < e2 \/ (e1 = e2 /\ (m1 <= m2)%positive).
Proof.
  unfold SFleb, SFcompare.
  destruct (Z.compare_spec e1 e2) as [He | He | He].
  - unfold Pos.le. change (Pos.compare_cont Eq m1 m2) with (m1 ?= m2)%positive.
    destruct (m1 ?= m2)%positive; split; intros H; try discriminate;
      try (right; split; [assumption | discriminate]); try reflexivity.
    destruct H as [H | [_ H]]; [lia | congruence].
  - split; [intros _; left; assumption | reflexivity].
  - split; [discriminate | lia].
Qed.


Lemma angle_limit_eq : angle_limit = S754_finite false 11796480 (-15).
Proof. reflexivity. Qed.

Lemma angle_increment_eq :
  angle_increment = S754_finite false 13421773 (-28).
Proof. reflexivity. Qed.

Lemma pow2_le_mono a b : 0 <= a <= b -> 2 ^ a <= 2 ^ b.
Proof. intros H. apply Z.pow_le_mono_r; lia. Qed.

Lemma bounded_mantissa m e :
  bounded F32.prec F32.emax m e = true ->
  Zpos m < 2 ^ 24 /\ (-149 < e -> 2 ^ 23 <= Zpos m).
Proof.
  intros H. apply bounded_inv in H as [Hc He]. rewrite fexp_eq in Hc.
  pose proof (digits2_pos_bounds m) as [Dl Du]. split.
  - assert (2 ^ Zpos (digits2_pos m) <= 2 ^ 24) by (apply pow2_le_mono; lia).
    lia.
  - intros Hn. replace (Zpos (digits2_pos m) - 1) with 23 in Dl by lia.
    exact Dl.
Qed.

Lemma angle_test_exact m e :
  bounded F32.prec F32.emax m e = true ->
  (F32.ge (S754_finite false m e) angle_limit = true
   <-> F32.val angle_limit <= F32.val (S754_finite false m e)).
Proof.
  intros Hb. pose proof (bounded_mantissa m e Hb) as [Hm24 Hm23].
  pose proof (bounded_range m e Hb) as [He _].
  unfold F32.ge. rewrite angle_limit_eq, leb_pos_finite.
  cbn [F32.val cond_Zopp]. change (2 ^ (-15 + 149)) with (2 ^ 134).
  assert (Hiff : (11796480 <= m)%positive <-> 11796480 <= Zpos m) by lia.
  rewrite Hiff. clear Hiff.
  change (2 ^ 24) with 16777216 in Hm24. change (2 ^ 23) with 8388608 in Hm23.
  destruct (Z.compare_spec e (-15)) as [He15 | He15 | He15].
  - subst e. change (2 ^ (-15 + 149)) with (2 ^ 134).
    assert (0 < 2 ^ 134) by (apply Z.pow_pos_nonneg; lia). split.
    + intros [H' | [_ H']]; [lia | nia].
    + intros H'. right. split; [reflexivity | nia].
  - assert (2 ^ (e + 149) <= 2 ^ 133) by (apply pow2_le_mono; lia).
    assert (0 < 2 ^ (e + 149)) by (apply Z.pow_pos_nonneg; lia).
    change (2 ^ 134) with (2 * 2 ^ 133).
    assert (0 < 2 ^ 133) by (apply Z.pow_pos_nonneg; lia).
    split; [lia | nia].
  - assert (2 ^ 135 <= 2 ^ (e + 149)) by (apply pow2_le_mono; lia).
    change (2 ^ 135) with (2 * 2 ^ 134) in H.
    assert (0 < 2 ^ 134) by (apply Z.pow_pos_nonneg; lia).
    specialize (Hm23 ltac:(lia)).
    split; [intros _; nia | intros _; left; lia].
Qed.

(** Replaces a closed constant by its value. *)
Ltac eval_const c :=
  let v := eval vm_compute in c in change c with v in *.

Ltac angle_consts :=
  unfold angle_bound in *; cbn [F32.val cond_Zopp] in *;
  eval_const (F32.val angle_limit); eval_const (F32.val angle_increment);
  eval_const angle_ulp; eval_const (2 ^ 135); eval_const (2 ^ 134);
  eval_const (2 ^ 23); eval_const (2 ^ 24);
  eval_const (2 ^ (-15 + 149)); eval_const (2 ^ (-28 + 149));
  eval_const (2 ^ (9 + 149)).

Lemma val_posfin x : posfin x -> 0 < F32.val x.
Proof.
  intros (m & e & -> & Hb). apply bounded_range in Hb as [He _].
  cbn [F32.val cond_Zopp].
  assert (0 < 2 ^ (e + 149)) by (apply Z.pow_pos_nonneg; lia). nia.
Qed.

Lemma angle_wrapped_spec x :
  angle_ok x ->
  let y := angle_wrapped x in
  (y = S754_zero false \/ posfin y) /\
  0 <= F32.val y < F32.val angle_limit /\
  (F32.ge x angle_limit = true <-> F32.val angle_limit <= F32.val x) /\
  (F32.ge x angle_limit = true ->
   F32.val y = F32.val x - F32.val angle_limit).
Proof.
  intros [-> | [(m & e & -> & Hb) Hle]]; unfold angle_wrapped.
  - cbn. repeat split; auto; try lia; discriminate.
  - pose proof (angle_test_exact m e Hb) as Htest.
    pose proof (val_posfin (S754_finite false m e)
                  ltac:(exists m, e; auto)) as Hpos.
    destruct (F32.ge (S754_finite false m e) angle_limit) eqn:Hge.
    + assert (Hlim : F32.val angle_limit <= F32.val (S754_finite false m e))
        by (apply Htest; reflexivity).
      assert (He : e = -15 /\ (11796480 <= m)%positive).
      { unfold F32.ge in Hge. rewrite angle_limit_eq in Hge.
        apply leb_pos_finite in Hge as [Hgt | [-> Hm]]; [exfalso | auto].
        pose proof (bounded_mantissa m e Hb) as [_ Hm23].
        specialize (Hm23 ltac:(lia)).
        assert (2 ^ 135 <= 2 ^ (e + 149)) by (apply pow2_le_mono; lia).
        angle_consts. nia. }
      destruct He as [-> Hm].
      rewrite angle_limit_eq.
      destruct (sub_same_exponent m 11796480 (-15) Hb Hm ltac:(lia))
        as [Hval Hshape].
      rewrite angle_limit_eq in Hlim. 
      split; [destruct Hshape as [? | ?]; [left | right]; assumption | ].
      split; [ | split; [tauto | intros _; exact Hval]].
      rewrite Hval. angle_consts. lia.
    + split; [right; exists m, e; auto | ].
      split; [ | split; [exact Htest | discriminate]].
      split; [lia | ].
      destruct (Z_lt_le_dec (F32.val (S754_finite false m e))
                            (F32.val angle_limit)) as [ | Hc]; [assumption | ].
      apply Htest in Hc. discriminate.
Qed.

Lemma add_increment_spec y :
  y = S754_zero false \/ posfin y ->
  F32.val y < F32.val angle_limit ->
  let x' := F32.add y angle_increment in
  posfin x' /\
  F32.val y < F32.val x' /\
  Z.abs (F32.val x' - (F32.val y + F32.val angle_increment)) <= angle_ulp.
Proof.
  intros [-> | (m & e & -> & Hb)] Hlt.
  - change (F32.add (S754_zero false) angle_increment) with angle_increment.
    split; [exists 13421773%positive, (-28); auto | ].
    angle_consts. lia.
  - rewrite angle_increment_eq.
    assert (Hc : bounded F32.prec F32.emax 13421773 (-28) = true)
      by reflexivity.
    destruct (add_pos_spec m e 13421773 (-28) 9 Hb Hc)
      as (m' & e' & Hr & Hb' & Habs).
    { angle_consts. lia. }
    { lia. }
    rewrite Hr.
    split; [exists m', e'; auto | ].
    change (2 ^ (F32.fexp 9 + 149)) with angle_ulp in Habs.
    split; [ | exact Habs].
    angle_consts. lia.
Qed.

Lemma angle_step_spec x :
  angle_ok x ->
  let y := angle_wrapped x in
  let x' := angle_step x in
  angle_ok x' /\
  (F32.ge x angle_limit = true <-> F32.val angle_limit <= F32.val x) /\
  (F32.ge x angle_limit = true ->
   F32.val y = F32.val x - F32.val angle_limit) /\
  0 <= F32.val y < F32.val angle_limit /\
  F32.val y < F32.val x' /\
  Z.abs (F32.val x' - (F32.val y + F32.val angle_increment)) <= angle_ulp.
Proof.
  intros Hx. cbv zeta.
  destruct (angle_wrapped_spec x Hx) as (Hshape & Hrange & Htest & Hexact).
  destruct (add_increment_spec _ Hshape (proj2 Hrange)) as (Hfin & Hinc & Habs).
  unfold angle_step.
  split; [ | tauto].
  right. split; [exact Hfin | ]. unfold angle_bound. lia.
Qed.


(** * Orbits of an iterated update *)

Lemma iter_plus_period {A : Type} (f : A -> A) (x : A) (a p : nat) :
  Nat.iter (a + p) f x = Nat.iter a f x ->
  forall n, (a <= n)%nat -> Nat.iter (n + p) f x = Nat.iter n f x.
Proof.
  intros Hcycle n Hn. induction Hn as [ | n Hn IH]; [exact Hcycle | ].
  rewrite Nat.add_succ_l, !Nat.iter_succ. now rewrite IH.
Qed.

Lemma check_orbit_spec {A : Type} (f : A -> A) (P : nat -> A -> bool) n :
  forall k x, check_orbit f P n k x = true ->
  forall m, (m < n)%nat -> P (k + m)%nat (Nat.iter m f x) = true.
Proof.
  induction n as [ | n IH]; intros k x H m Hm; [lia | ].
  cbn [check_orbit] in H. apply andb_true_iff in H as [H0 H1].
  destruct m as [ | m].
  - now rewrite Nat.add_0_r.
  - rewrite Nat.iter_succ_r, Nat.add_succ_r.
    apply (IH (S k) (f x) H1 m). lia.
Qed.

(** A property checked on the states before the orbit closes holds of every
    state, when it does not tell a frame from the one a period later. *)
Lemma orbit_forall {A : Type} (f : A -> A) (x : A) (P : nat -> A -> bool)
      (a p : nat) :
  (0 < p)%nat ->
  Nat.iter (a + p) f x = Nat.iter a f x ->
  (forall n s, (a <= n)%nat -> P (n + p)%nat s = P n s) ->
  check_orbit f P (a + p) 0 x = true ->
  forall n, P n (Nat.iter n f x) = true.
Proof.
  intros Hp Hcycle Hper Hcheck n.
  induction n as [n IH] using lt_wf_ind.
  destruct (Nat.lt_ge_cases n (a + p)) as [Hlt | Hge].
  - exact (check_orbit_spec f P (a + p) 0 x Hcheck n Hlt).
  - replace n with ((n - p) + p)%nat by lia.
    rewrite (iter_plus_period f x a p Hcycle) by lia.
    rewrite Hper by lia. apply IH. lia.
Qed.

(** * The offset *)

Lemma offset_part_update a :
  offset_part (update_anim a) = offset_step (offset_part a).
Proof. reflexivity. Qed.

Lemma offset_part_frames n :
  offset_part (frames_anim n init_anim) = Nat.iter n offset_step init_anim.
Proof.
  induction n as [ | n IH]; [reflexivity | ].
  cbn [frames_anim]. now rewrite Nat.iter_succ, offset_part_update, IH.
Qed.

(** The orbit of the offset closes: the state after 285 frames is the state
    after 17 frames. *)
Lemma offset_orbit_closes :
  Nat.iter (17 + 268) offset_step init_anim = Nat.iter 17 offset_step init_anim.
Proof. vm_compute. reflexivity. Qed.

Lemma offset_orbit_forall (P : nat -> Anim -> bool) :
  (forall n a, P n a = P n (offset_part a)) ->
  (forall n s, (17 <= n)%nat -> P (n + 268)%nat s = P n s) ->
  check_orbit offset_step P (17 + 268) 0 init_anim = true ->
  forall n, P n (frames_anim n init_anim) = true.
Proof.
  intros Hpart Hper Hcheck n.
  rewrite Hpart, offset_part_frames.
  apply (orbit_forall offset_step init_anim P 17 268);
    [lia | exact offset_orbit_closes | exact Hper | exact Hcheck].
Qed.

Lemma within_overshoot_frames n :
  within_overshoot (frames_anim n init_anim) = true.
Proof.
  apply (offset_orbit_forall (fun _ => within_overshoot));
    [reflexivity | reflexivity | vm_compute; reflexivity].
Qed.

Lemma flips_at_limit_frames n :
  flips_at_limit (frames_anim n init_anim) = true.
Proof.
  apply (offset_orbit_forall (fun _ => flips_at_limit));
    [reflexivity | reflexivity | vm_compute; reflexivity].
Qed.

Lemma succ_mod_period n : (S (n + 268) mod 134 = S n mod 134)%nat.
Proof.
  replace (S (n + 268)) with (S n + 2 * 134)%nat by lia.
  apply Nat.Div0.mod_add.
Qed.

Lemma flips_on_schedule_frames n :
  flips_on_schedule n (frames_anim n init_anim) = true.
Proof.
  apply (offset_orbit_forall flips_on_schedule).
  - reflexivity.
  - intros m s _. unfold flips_on_schedule. now rewrite succ_mod_period.
  - vm_compute; reflexivity.
Qed.

Lemma centred_on_schedule_frames n :
  centred_on_schedule n (frames_anim n init_anim) = true.
Proof.
  apply (offset_orbit_forall centred_on_schedule).
  - reflexivity.
  - intros m s _. unfold centred_on_schedule.
    replace (m + 268)%nat with (m + 2 * 134)%nat by lia.
    now rewrite Nat.Div0.mod_add.
  - vm_compute; reflexivity.
Qed.

(** * The angle along a run *)

Lemma currentAngle_update a :
  currentAngle (update_anim a) = angle_step (currentAngle a).
Proof. reflexivity. Qed.

Lemma currentAngle_wrap a :
  currentAngle (wrap_angle (flip_direction (move_offset a)))
  = angle_wrapped (currentAngle a).
Proof. reflexivity. Qed.

Lemma angle_ok_frames n : angle_ok (currentAngle (frames_anim n init_anim)).
Proof.
  induction n as [ | n IH]; [left; reflexivity | ].
  cbn [frames_anim]. rewrite currentAngle_update.
  exact (proj1 (angle_step_spec _ IH)).
Qed.

(** * The properties of the animation *)

(** C2 (the claim as stated fails): after frame 67 the offset is outside
    [[-offset_max, offset_max]]. *)
Lemma offset_leaves_limit_interval :
  ~ (Qabs (offset_Q (frames_anim 67 init_anim)) <= limit_Q)%Q.
Proof.
  intros H. apply Qle_bool_iff in H. vm_compute in H. discriminate.
Qed.

(** C2 (amended): on every frame the offset stays within
    [[-offset_max - offset_step, offset_max + offset_step]], and the frame
    flips the direction exactly when the offset it has just produced
    satisfies [|offset| >= offset_max]. *)
Theorem offset_interval_and_flip_rule n :
  let a := frames_anim n init_anim in
  (Qabs (offset_Q a) <= limit_Q + step_Q)%Q /\
  (flips a = true <-> (limit_Q <= Qabs (offset_Q (update_anim a)))%Q).
Proof.
  cbv zeta. split.
  - apply Qle_bool_iff. exact (within_overshoot_frames n).
  - pose proof (flips_at_limit_frames n) as H. unfold flips_at_limit in H.
    apply Bool.eqb_prop in H. rewrite H. apply Qle_bool_iff.
Qed.

(** C3: on every frame the offset stays within
    [[-offset_max - offset_step, offset_max + offset_step]]; the direction
    is flipped after the step, on the offset already moved, which is stored
    as it is (no clamping), and the overshoot does occur (frame 67). *)
Theorem offset_within_one_step_of_limit :
  (forall n, (Qabs (offset_Q (frames_anim n init_anim))
              <= limit_Q + step_Q)%Q) /\
  (forall a, direction (update_anim a)
             = if at_limit (move_offset a) then negb (direction a)
               else direction a) /\
  (forall a, triOffset (update_anim a) = triOffset (move_offset a)) /\
  (limit_Q < offset_Q (frames_anim 67 init_anim))%Q.
Proof.
  split; [ | split; [ | split]].
  - intros n. apply Qle_bool_iff. exact (within_overshoot_frames n).
  - reflexivity.
  - reflexivity.
  - vm_compute. reflexivity.
Qed.

(** C4: from offset 0, increasing, with step 0.015 and limit 1.0, the
    direction flips for the first time on frame 67, which is
    [ceil(offset_max / offset_step)], with the offset within a millionth of
    1.005; in general frame [m] flips the direction exactly when [m] is 67
    modulo 134, and every 134th state is back at the centre (within a
    millionth): one flip per half-cycle, 67 frames after the centre. *)
Theorem direction_flips_every_half_cycle :
  offset_Q init_anim == 0 /\ direction init_anim = true /\
  Qceiling (limit_Q / step_Q) = 67 /\
  (forall n, (n < 66)%nat -> flips (frames_anim n init_anim) = false) /\
  flips (frames_anim 66 init_anim) = true /\
  direction (frames_anim 67 init_anim) = false /\
  (Qabs (offset_Q (frames_anim 67 init_anim) - (1005 # 1000))
   <= 1 # 1000000)%Q /\
  (forall n, flips (frames_anim n init_anim) = Nat.eqb (S n mod 134) 67) /\
  (forall k, (Qabs (offset_Q (frames_anim (134 * k) init_anim))
              <= 1 # 1000000)%Q).
Proof.
  assert (Hsched : forall n,
             flips (frames_anim n init_anim) = Nat.eqb (S n mod 134) 67).
  { intros n. apply Bool.eqb_prop. exact (flips_on_schedule_frames n). }
  split; [reflexivity | ]. split; [reflexivity | ].
  split; [vm_compute; reflexivity | ].
  split.
  { intros n Hn. rewrite Hsched. apply Nat.eqb_neq.
    rewrite Nat.mod_small by lia. lia. }
  split; [rewrite Hsched; reflexivity | ].
  split; [vm_compute; reflexivity | ].
  split; [apply Qle_bool_iff; vm_compute; reflexivity | ].
  split; [exact Hsched | ].
  intros k. pose proof (centred_on_schedule_frames (134 * k)) as H.
  unfold centred_on_schedule in H.
  rewrite Nat.mul_comm, Nat.Div0.mod_mul in H. cbn [Nat.eqb] in H.
  rewrite Nat.mul_comm in H. apply Qle_bool_iff. exact H.
Qed.

(** C5 (the claim as stated fails): frame 7201 takes the angle across the
    threshold and leaves it there, unreduced: the stored angle is below 360
    before the frame, and after it is the old angle plus the increment, at
    least 360. *)
Lemma angle_crosses_without_wrapping :
  let a := frames_anim (72 * 100) init_anim in
  angle_over a = false /\
  currentAngle (update_anim a) = F32.add (currentAngle a) angle_increment /\
  angle_over (update_anim a) = true.
Proof. vm_compute. auto. Qed.

(** C5 (amended): every frame first tests the stored angle against 360 and,
    when the test holds, reduces it by exactly 360, once; it then adds 0.05
    (binary32 addition, within one rounding unit [2^-15] of the exact sum) as
    its last step.  So the reduction comes on the frame after the one whose
    increment crossed the threshold: the angle used within a frame is in
    [[0, 360)], it grows on every frame, and the stored angle exceeds 360 by
    at most one increment.  Values are in units of [2^-149]. *)
Theorem angle_wraps_on_the_next_frame n :
  let a := frames_anim n init_anim in
  let stored := currentAngle a in
  let used := currentAngle (wrap_angle a) in
  let next := currentAngle (update_anim a) in
  (angle_over a = true <-> F32.val angle_limit <= F32.val stored) /\
  (angle_over a = true -> F32.val used = F32.val stored - F32.val angle_limit) /\
  (angle_over a = false -> used = stored) /\
  0 <= F32.val used < F32.val angle_limit /\
  next = F32.add used angle_increment /\
  F32.val used < F32.val next /\
  Z.abs (F32.val next - (F32.val used + F32.val angle_increment))
  <= angle_ulp /\
  0 <= F32.val stored
    <= F32.val angle_limit + F32.val angle_increment + angle_ulp.
Proof.
  cbv zeta.
  pose proof (angle_ok_frames n) as Hok.
  destruct (angle_step_spec _ Hok) as (_ & Htest & Hexact & Hrange & Hinc & Habs).
  change (angle_wrapped (currentAngle (frames_anim n init_anim)))
    with (currentAngle (wrap_angle (frames_anim n init_anim))) in *.
  change (angle_step (currentAngle (frames_anim n init_anim)))
    with (currentAngle (update_anim (frames_anim n init_anim))) in *.
  change (F32.ge (currentAngle (frames_anim n init_anim)) angle_limit)
    with (angle_over (frames_anim n init_anim)) in *.
  split; [exact Htest | ]. split; [exact Hexact | ].
  split.
  { intros Hover. unfold wrap_angle. cbn [currentAngle]. now rewrite Hover. }
  split; [exact Hrange | ]. split; [reflexivity | ].
  split; [exact Hinc | ]. split; [exact Habs | ].
  destruct Hok as [-> | [Hpos Hle]].
  - vm_compute. split; discriminate.
  - apply val_posfin in Hpos. unfold angle_bound in Hle. lia.
Qed.

(** * The program against the graphics context *)

Lemma frame_anim env k l w :
  anim (snd (frame env k l w)) = update_anim (anim w).
Proof. reflexivity. Qed.

Lemma frame_handles env k l w :
  handles (snd (frame env k l w)) = handles w.
Proof. reflexivity. Qed.

Lemma main_exit_code env w :
  fst (main env w) =
  if (glfwInit_result env =? 0) || (glfwCreateWindow_result env =? 0)
     || (glewInit_result env =? GLEW_OK)
  then 1 else 0.
Proof.
  unfold main, bind.
  destruct (glfwInit_result env =? 0); [reflexivity|].
  destruct (glfwCreateWindow_result env =? 0); [reflexivity|].
  destruct (glewInit_result env =? GLEW_OK); reflexivity.
Qed.

Arguments to_unsigned : simpl never.
Arguments to_int : simpl never.

Lemma update_same {A} (f : Z -> A) k v : update f k v k = v.
Proof. unfold update. now rewrite Z.eqb_refl. Qed.

Lemma update_other {A} (f : Z -> A) k v k' : k' <> k -> update f k v k' = f k'.
Proof. unfold update. intros H. apply Z.eqb_neq in H. now rewrite H. Qed.

Lemma createTriangle_store env w :
  sane_names env ->
  let w' := snd (createTriangle env w) in
  vao (handles w') = to_unsigned (gen_vertex_array env) /\
  ibo (handles w') = to_unsigned (gen_index_buffer env) /\
  buffer_store (context w') (ibo (handles w')) = Some (UIntData indices).
Proof.
  intros (Hv & Hi & Hiv). cbn. split; [reflexivity | split; [reflexivity | ]].
  apply Z.eqb_neq in Hv.
  unfold element_array_buffer_binding; cbn. rewrite !Hv, !update_same.
  assert (Hi' := Hi). apply Z.eqb_neq in Hi'. rewrite Hi'.
  destruct (to_unsigned (gen_vertex_buffer env) =? 0) eqn:Hb;
    rewrite ?update_other by assumption; now rewrite update_same.
Qed.

Arguments vertexShader : simpl never.
Arguments fragmentShader : simpl never.

Lemma addShader_untouched env p src ty w :
  untouched w (snd (addShader env p src ty w)).
Proof.
  unfold untouched, addShader, bind. cbn.
  destruct (compile_status env ty =? 0); cbn; repeat split; reflexivity.
Qed.

(** Names the world each [addShader] call returns, innermost first, and
    records what the call left alone. *)
Ltac forget_addShader :=
  repeat match goal with
  | |- context [addShader ?e ?p ?s ?t ?w] =>
      lazymatch w with context [addShader] => fail | _ => idtac end;
      let H := fresh "Hadd" in
      let w' := fresh "w" in
      pose proof (addShader_untouched e p s t w) as H;
      unfold untouched in H; cbn -[addShader] in H;
      set (w' := snd (addShader e p s t w)) in *;
      destruct H as (? & ? & ? & ? & ? & ? & ? & ? & ?)
  end.

(** Rewrites with the equations at hand, then computes. *)
Ltac chase :=
  repeat match goal with H : ?l = _ |- context [?l] => rewrite H end;
  cbn; try reflexivity.

Lemma compileShaders_keeps env w :
  let w' := snd (compileShaders env w) in
  vao (handles w') = vao (handles w) /\ ibo (handles w') = ibo (handles w) /\
  anim w' = anim w /\
  buffer_store (context w') = buffer_store (context w) /\
  drawn (context w') = drawn (context w).
Proof.
  unfold compileShaders, bind. cbn -[addShader].
  destruct (to_unsigned (create_program env) =? 0); cbn -[addShader]; auto.
  forget_addShader.
  destruct (link_status env =? 0); [ | destruct (validate_status env =? 0)];
    cbn; repeat split; chase.
Qed.

Lemma compileShaders_link_failure env w :
  link_status env = 0 \/ validate_status env = 0 ->
  let w' := snd (compileShaders env w) in
  uniformModel (handles w') = uniformModel (handles w) /\
  uniformProjection (handles w') = uniformProjection (handles w) /\
  lookups (trace w') = lookups (trace w) /\
  uploads (trace w') = uploads (trace w).
Proof.
  intros Hfail. unfold compileShaders, bind. cbn -[addShader].
  destruct (to_unsigned (create_program env) =? 0); cbn -[addShader]; auto.
  forget_addShader.
  destruct (link_status env =? 0) eqn:Hl;
    [ | destruct (validate_status env =? 0) eqn:Hv ];
    cbn; try (repeat split; chase; fail).
  exfalso. destruct Hfail as [H' | H']; rewrite H' in *; discriminate.
Qed.

Lemma frame_uploads env k l w :
  uploads (trace (snd (frame env k l w))) =
  to_int (uniformProjection (handles w)) :: to_int (uniformModel (handles w))
  :: uploads (trace w).
Proof. reflexivity. Qed.

Lemma render_loop_handles env n : forall k l w,
  handles (snd (render_loop env n k l w)) = handles w.
Proof.
  induction n as [ | n IH]; intros k l w; [reflexivity | ].
  cbn [render_loop]. unfold bind at 1 2. cbn [call fst snd].
  rewrite IH. reflexivity.
Qed.


Lemma concat_repeat_snoc {A} (x : list A) n r :
  List.concat (repeat x n) ++ x ++ r = List.concat (repeat x (S n)) ++ r.
Proof.
  cbn [repeat]. rewrite repeat_cons, concat_app. cbn [List.concat].
  now rewrite app_nil_r, <- app_assoc.
Qed.

Lemma render_loop_uploads env n : forall k l w,
  uploads (trace (snd (render_loop env n k l w))) =
  List.concat (repeat [to_int (uniformProjection (handles w));
                       to_int (uniformModel (handles w))] n)
  ++ uploads (trace w).
Proof.
  induction n as [ | n IH]; intros k l w; [reflexivity | ].
  cbn [render_loop]. unfold bind at 1 2. cbn [call fst snd].
  rewrite IH, frame_uploads, frame_handles. cbn [handles trace uploads].
  apply (concat_repeat_snoc [_; _]).
Qed.










(** * The properties of setup, upload and drawing *)

(** C1 (the code departs from the claim): with every library call
    succeeding, [glewInit] answering [GLEW_OK], the program prints
    "Could not initialize GLEW" and exits with code 1 without rendering;
    with [glewInit] failing (answer 1) it renders until the window is closed
    and exits with code 0.  The test of line 229 is inverted. *)
Theorem main_exit_code_inverts_glew_test :
  fst (main (sample_env GLEW_OK 2) init_world) = 1 /\
  out (snd (main (sample_env GLEW_OK 2) init_world))
  = [OStr ("Could not initialize GLEW" ++ nl)] /\
  fst (main (sample_env 1 2) init_world) = 0 /\
  drawn (context (snd (main (sample_env 1 2) init_world)))
  = [(GL_TRIANGLES, indices); (GL_TRIANGLES, indices)].
Proof. repeat split; reflexivity. Qed.

(** C6: when linking or validation fails, [compileShaders] returns without
    looking up any uniform, [uniformModel] and [uniformProjection] keep the
    value 0 they had, and each frame of the render loop that follows makes
    its two uniform uploads to location 0 (not -1). *)
Theorem link_failure_uploads_to_location_0 env n k l w :
  uniformModel (handles w) = 0 -> uniformProjection (handles w) = 0 ->
  link_status env = 0 \/ validate_status env = 0 ->
  let w1 := snd (compileShaders env w) in
  let w2 := snd (render_loop env n k l w1) in
  uniformModel (handles w1) = 0 /\ uniformProjection (handles w1) = 0 /\
  lookups (trace w1) = lookups (trace w) /\
  uploads (trace w2) = List.concat (repeat [0; 0] n) ++ uploads (trace w).
Proof.
  intros HM HP Hfail w1 w2.
  destruct (compileShaders_link_failure env w Hfail) as (H1 & H2 & H3 & H4).
  fold w1 in H1, H2, H3, H4. rewrite HM in H1. rewrite HP in H2.
  repeat split; try assumption.
  unfold w2. rewrite render_loop_uploads, H1, H2, H4. reflexivity.
Qed.

Lemma link_failure_uploads_to_location_0_witness :
  uploads (trace (snd (render_loop failing_env 2 0 sample_locals
                         (snd (compileShaders failing_env init_world)))))
  = [0; 0; 0; 0].
Proof.
  destruct (link_failure_uploads_to_location_0
              failing_env 2 0 sample_locals init_world
              eq_refl eq_refl (or_introl eq_refl)) as (_ & _ & _ & H).
  exact H.
Defined.





(** C10: when [createTriangle] returns, whatever the state it started from
    and whatever names the library handed out, no vertex array object is
    bound, no buffer is bound to the array-buffer target, and none to the
    element-array-buffer target. *)
Theorem createTriangle_leaves_nothing_bound env w :
  let c := context (snd (createTriangle env w)) in
  vertex_array_binding c = 0 /\ array_buffer_binding c = 0 /\
  element_array_buffer_binding c = 0.
Proof. cbn. auto. Qed.

(** * The clear colour and its phase *)




(** * Further properties of the program *)

(** ** The exit code and the ways out of [main] *)

(** X1: the exit code of [main] is 0 or 1, and it is 1 exactly when
    [glfwInit] answers 0, the window is null or [glewInit] answers
    [GLEW_OK]; no other answer of the libraries (shader compilation,
    linking, validation, names, sizes) and no start state changes it. *)
Theorem main_returns_1_iff env w :
  (fst (main env w) = 1 <->
   glfwInit_result env = 0 \/ glfwCreateWindow_result env = 0
   \/ glewInit_result env = GLEW_OK) /\
  (fst (main env w) = 0 \/ fst (main env w) = 1).
Proof.
  rewrite main_exit_code.
  destruct (Z.eqb_spec (glfwInit_result env) 0) as [H1 | H1];
    destruct (Z.eqb_spec (glfwCreateWindow_result env) 0) as [H2 | H2];
    destruct (Z.eqb_spec (glewInit_result env) GLEW_OK) as [H3 | H3];
    cbn [orb]; split; auto; split; auto; try discriminate;
    intros [H | [H | H]]; contradiction.
Qed.

(** X2: a run that exits with code 1 has written exactly one message, has
    made no call into the graphics library and changed nothing of the
    graphics context, the handles or the animated values, and its last call
    is [glfwTerminate]. *)
Theorem main_failure_terminates_glfw env w :
  fst (main env w) = 1 ->
  let w' := snd (main env w) in
  hd_error (trace w') = Some glfwTerminate /\
  count is_graphics_call (trace w') = count is_graphics_call (trace w) /\
  context w' = context w /\ handles w' = handles w /\ anim w' = anim w /\
  (out w' = OStr ("GLFW failed to initialize" ++ nl) :: out w \/
   out w' = OStr ("Could not create main GLFW window" ++ nl) :: out w \/
   out w' = OStr ("Could not initialize GLEW" ++ nl) :: out w).
Proof.
  intros Hexit. rewrite main_exit_code in Hexit. unfold main, bind.
  destruct (glfwInit_result env =? 0).
  { cbn. destruct (context w); auto 10. }
  destruct (glfwCreateWindow_result env =? 0).
  { cbn. destruct (context w); auto 10. }
  destruct (glewInit_result env =? GLEW_OK).
  { cbn. destruct (context w); auto 10. }
  discriminate.
Qed.

Lemma main_failure_terminates_glfw_witness :
  hd_error (trace (snd (main (sample_env GLEW_OK 2) init_world)))
  = Some glfwTerminate.
Proof.
  exact (proj1 (main_failure_terminates_glfw (sample_env GLEW_OK 2)
                  init_world eq_refl)).
Defined.

(** ** Calls outside the graphics library *)

Lemma count_cons p c t :
  count p (c :: t) = ((if p c then 1 else 0) + count p t)%nat.
Proof. unfold count. cbn [filter]. destruct (p c); reflexivity. Qed.

Lemma count_nil p : count p [] = 0%nat.
Proof. reflexivity. Qed.

Lemma count_app p t1 t2 : count p (t1 ++ t2) = (count p t1 + count p t2)%nat.
Proof. unfold count. now rewrite filter_app, length_app. Qed.

Section NonGraphics.

Variable p : Call -> bool.
Hypothesis p_not_graphics : forall c, is_graphics_call c = true -> p c = false.

Ltac skip_graphics :=
  rewrite ?count_cons;
  repeat match goal with
         | |- context [p ?c] => rewrite (p_not_graphics c) by reflexivity
         end;
  cbn [Nat.add].

Lemma addShader_count env program src ty w :
  count p (trace (snd (addShader env program src ty w))) = count p (trace w).
Proof.
  unfold addShader, bind. cbn -[count].
  destruct (compile_status env ty =? 0); cbn -[count]; skip_graphics;
    reflexivity.
Qed.

Lemma createTriangle_count env w :
  count p (trace (snd (createTriangle env w))) = count p (trace w).
Proof. cbn -[count]. skip_graphics. reflexivity. Qed.

Lemma compileShaders_count env w :
  count p (trace (snd (compileShaders env w))) = count p (trace w).
Proof.
  unfold compileShaders, bind. cbn -[addShader count].
  destruct (to_unsigned (create_program env) =? 0); cbn -[addShader count].
  { skip_graphics. reflexivity. }
  destruct (link_status env =? 0);
    [ | destruct (validate_status env =? 0)];
    cbn -[addShader count]; skip_graphics; rewrite !addShader_count;
    cbn [trace]; skip_graphics; reflexivity.
Qed.

(** The calls of one frame that count. *)
Lemma frame_count env k l w :
  count p (trace (snd (frame env k l w)))
  = (count p [ glfwSwapBuffers (mainWindow l); sleep_for_microseconds 16667;
               glfwPollEvents; glfwGetWindowSize (mainWindow l) ]
     + count p (trace w))%nat.
Proof.
  cbn -[count]. match goal with |- _ = ?r => set (R := r) end.
  skip_graphics. subst R. rewrite !count_cons, count_nil. lia.
Qed.

Lemma frame_mainWindow env k l w :
  mainWindow (fst (frame env k l w)) = mainWindow l.
Proof. reflexivity. Qed.

Lemma render_loop_count env n : forall k l w,
  count p (trace (snd (render_loop env n k l w)))
  = (n * count p [ glfwSwapBuffers (mainWindow l);
                   sleep_for_microseconds 16667;
                   glfwPollEvents; glfwGetWindowSize (mainWindow l);
                   glfwWindowShouldClose (mainWindow l) ]
     + count p [glfwWindowShouldClose (mainWindow l)]
     + count p (trace w))%nat.
Proof.
  induction n as [ | n IH]; intros k l w.
  - cbn -[count]. rewrite !count_cons, count_nil. lia.
  - cbn [render_loop]. unfold bind at 1 2. cbn [call fst snd].
    rewrite IH, frame_mainWindow, frame_count. cbn [trace].
    rewrite !count_cons, count_nil. lia.
Qed.

End NonGraphics.

Lemma is_glfwTerminate_not_graphics c :
  is_graphics_call c = true -> is_glfwTerminate c = false.
Proof. destruct c; cbn; congruence. Qed.

Lemma is_close_query_not_graphics c :
  is_graphics_call c = true -> is_close_query c = false.
Proof. destruct c; cbn; congruence. Qed.

Lemma is_poll_not_graphics c :
  is_graphics_call c = true -> is_poll c = false.
Proof. destruct c; cbn; congruence. Qed.

Lemma is_swap_not_graphics c :
  is_graphics_call c = true -> is_swap c = false.
Proof. destruct c; cbn; congruence. Qed.

Lemma is_sleep_not_graphics c :
  is_graphics_call c = true -> is_sleep c = false.
Proof. destruct c; cbn; congruence. Qed.

Lemma frame_drawn_length env k l w :
  List.length (drawn (context (snd (frame env k l w))))
  = S (List.length (drawn (context w))).
Proof. reflexivity. Qed.

Lemma render_loop_drawn_length env n : forall k l w,
  List.length (drawn (context (snd (render_loop env n k l w))))
  = (n + List.length (drawn (context w)))%nat.
Proof.
  induction n as [ | n IH]; intros k l w; [reflexivity | ].
  cbn [render_loop]. unfold bind at 1 2. cbn [call fst snd].
  rewrite IH, frame_drawn_length. cbn [drawn context]. 
  change (drawn (exec (glfwWindowShouldClose (mainWindow l)) (context w)))
    with (drawn (context w)). lia.
Qed.

Lemma setup_drawn env w :
  drawn (context (snd (compileShaders env (snd (createTriangle env w)))))
  = drawn (context w).
Proof.
  destruct (compileShaders_keeps env (snd (createTriangle env w)))
    as (_ & _ & _ & _ & Hd).
  rewrite Hd. reflexivity.
Qed.

(** X3: a run that exits with code 0 ends with [glfwDestroyWindow] and never
    calls [glfwTerminate]; it has asked whether the window should close once
    more than it has rendered frames, and every frame polled the events,
    slept 16667 microseconds, swapped the buffers and submitted one draw,
    once each. *)
Theorem main_success_leaves_glfw_running env w :
  fst (main env w) = 0 ->
  let w' := snd (main env w) in
  let n := frames_until_close env in
  hd_error (trace w') = Some (glfwDestroyWindow (glfwCreateWindow_result env))
  /\ count is_glfwTerminate (trace w') = count is_glfwTerminate (trace w)
  /\ count is_close_query (trace w')
     = (S n + count is_close_query (trace w))%nat
  /\ count is_poll (trace w') = (n + count is_poll (trace w))%nat
  /\ count is_sleep (trace w') = (n + count is_sleep (trace w))%nat
  /\ count is_swap (trace w') = (n + count is_swap (trace w))%nat
  /\ List.length (drawn (context w'))
     = (n + List.length (drawn (context w)))%nat.
Proof.
  intros Hexit. rewrite main_exit_code in Hexit.
  destruct (glfwInit_result env =? 0) eqn:H1; [discriminate | ].
  destruct (glfwCreateWindow_result env =? 0) eqn:H2; [discriminate | ].
  destruct (glewInit_result env =? GLEW_OK) eqn:H3; [discriminate | ].
  clear Hexit. unfold main, bind. rewrite H1, H2, H3.
  cbn -[createTriangle compileShaders render_loop count].
  split; [reflexivity | ].
  rewrite !count_cons. cbn [is_glfwTerminate is_close_query is_poll is_sleep
                            is_swap Nat.add].
  rewrite (render_loop_count _ is_glfwTerminate_not_graphics),
          (render_loop_count _ is_close_query_not_graphics),
          (render_loop_count _ is_poll_not_graphics),
          (render_loop_count _ is_sleep_not_graphics),
          (render_loop_count _ is_swap_not_graphics).
  rewrite (compileShaders_count _ is_glfwTerminate_not_graphics),
          (compileShaders_count _ is_close_query_not_graphics),
          (compileShaders_count _ is_poll_not_graphics),
          (compileShaders_count _ is_sleep_not_graphics),
          (compileShaders_count _ is_swap_not_graphics).
  rewrite (createTriangle_count _ is_glfwTerminate_not_graphics),
          (createTriangle_count _ is_close_query_not_graphics),
          (createTriangle_count _ is_poll_not_graphics),
          (createTriangle_count _ is_sleep_not_graphics),
          (createTriangle_count _ is_swap_not_graphics).
  rewrite render_loop_drawn_length, setup_drawn.
  cbn [trace mainWindow]. rewrite !count_cons, !count_nil.
  cbn [is_glfwTerminate is_close_query is_poll is_sleep is_swap Z.eqb
       Pos.eqb]. 
  repeat split; lia.
Qed.

Lemma main_success_leaves_glfw_running_witness :
  count is_glfwTerminate (trace (snd (main (sample_env 1 2) init_world)))
  = 0%nat.
Proof.
  exact (proj1 (proj2 (main_success_leaves_glfw_running (sample_env 1 2)
                         init_world eq_refl))).
Defined.

(** ** Shader stages, linking and uniforms *)

Lemma addShader_attached env program src ty w :
  attached_shaders (context (snd (addShader env program src ty w)))
  = stage_attached env program ty ++ attached_shaders (context w).
Proof.
  unfold addShader, stage_attached, bind. cbn.
  destruct (compile_status env ty =? 0); reflexivity.
Qed.

Lemma addShader_out_ok env program src ty w :
  compile_status env ty <> 0 ->
  out (snd (addShader env program src ty w)) = out w.
Proof.
  intros H. apply Z.eqb_neq in H. unfold addShader, bind. cbn.
  rewrite H. reflexivity.
Qed.

Lemma compileShaders_attaches_compiled_stages_aux env w :
  attached_shaders (context (snd (compileShaders env w)))
  = if to_unsigned (create_program env) =? 0
    then attached_shaders (context w)
    else stage_attached env (to_unsigned (create_program env))
                        GL_FRAGMENT_SHADER
         ++ stage_attached env (to_unsigned (create_program env))
                           GL_VERTEX_SHADER
         ++ attached_shaders (context w).
Proof.
  unfold compileShaders, bind. cbn -[addShader].
  destruct (to_unsigned (create_program env) =? 0); [reflexivity | ].
  destruct (link_status env =? 0);
    [ | destruct (validate_status env =? 0)];
    cbn -[addShader]; rewrite !addShader_attached; reflexivity.
Qed.

(** X4: [compileShaders] attaches to the program exactly the stages that
    compiled, the vertex stage first, whatever linking and validation
    answer; when no program could be created it attaches nothing. *)
Theorem compileShaders_attaches_compiled_stages env w :
  let program := to_unsigned (create_program env) in
  attached_shaders (context (snd (compileShaders env w)))
  = if program =? 0 then attached_shaders (context w)
    else stage_attached env program GL_FRAGMENT_SHADER
         ++ stage_attached env program GL_VERTEX_SHADER
         ++ attached_shaders (context w).
Proof.
  exact (compileShaders_attaches_compiled_stages_aux env w).
Qed.




Lemma substring_0_short n : forall s,
  (String.length s <= n)%nat -> substring 0 n s = s.
Proof.
  induction n as [ | n IH]; intros [ | c s] H; cbn in *; try reflexivity;
    try lia.
  f_equal. apply IH. lia.
Qed.

Lemma addShader_no_validate env program src ty w :
  count is_validate (trace (snd (addShader env program src ty w)))
  = count is_validate (trace w).
Proof.
  unfold addShader, bind. cbn -[count].
  destruct (compile_status env ty =? 0); cbn -[count];
    rewrite !count_cons; reflexivity.
Qed.

(** X6: when both stages compile and linking fails, [compileShaders] writes
    "Error linking program: ", the log and a newline, and returns without
    validating the program; a log of fewer than 1024 characters is written
    whole.  Both stages stay attached. *)
Theorem link_failure_is_reported_and_validation_skipped env w :
  to_unsigned (create_program env) <> 0 ->
  compile_status env GL_VERTEX_SHADER <> 0 ->
  compile_status env GL_FRAGMENT_SHADER <> 0 ->
  link_status env = 0 ->
  let program := to_unsigned (create_program env) in
  let w' := snd (compileShaders env w) in
  out w' = [ OChar (ascii_of_nat 10);
             OStr (read_info_log 1024 (link_info_log env));
             OStr "Error linking program: " ] ++ out w /\
  ((String.length (link_info_log env) < 1024)%nat ->
   read_info_log 1024 (link_info_log env) = link_info_log env) /\
  hd_error (trace w') = Some (glGetProgramInfoLog program 1024) /\
  count is_validate (trace w') = count is_validate (trace w) /\
  List.length (attached_shaders (context w'))
  = (2 + List.length (attached_shaders (context w)))%nat.
Proof.
  intros Hp Hv Hf Hl. cbv zeta.
  assert (Hatt := compileShaders_attaches_compiled_stages_aux env w).
  apply Z.eqb_neq in Hp. 
  unfold compileShaders, bind in *. cbn -[addShader count] in *.
  rewrite Hp in *. cbn -[addShader count] in *. rewrite Hl in *.
  cbn -[addShader count] in *.
  rewrite !addShader_out_ok by assumption. cbn [out].
  split; [reflexivity | ].
  split.
  { intros Hlen. unfold read_info_log. apply substring_0_short. lia. }
  split; [reflexivity | ].
  split.
  { rewrite !count_cons, !addShader_no_validate. cbn [trace].
    rewrite count_cons. reflexivity. }
  rewrite Hatt. unfold stage_attached.
  apply Z.eqb_neq in Hv, Hf. rewrite Hv, Hf. reflexivity.
Qed.

Lemma link_failure_is_reported_and_validation_skipped_witness :
  out (snd (compileShaders (link_failing_env) init_world))
  = [ OChar (ascii_of_nat 10); OStr "error: no entry point";
      OStr "Error linking program: " ].
Proof.
  exact (proj1 (link_failure_is_reported_and_validation_skipped
                  link_failing_env init_world
                  ltac:(cbv; discriminate) ltac:(cbv; discriminate)
                  ltac:(cbv; discriminate) eq_refl)).
Defined.

(** ** What a frame leaves behind *)

(** X7: every frame, and so the render loop after at least one frame,
    ends with no vertex array object, no element array buffer and no program
    bound; it changes neither the array-buffer binding nor the contents of
    any buffer nor the attached stages. *)
Theorem render_loop_leaves_nothing_bound env n k l w :
  let c := context w in
  let c' := context (snd (render_loop env (S n) k l w)) in
  vertex_array_binding c' = 0 /\
  element_array_buffer_binding c' = 0 /\
  current_program c' = 0 /\
  array_buffer_binding c' = array_buffer_binding c /\
  buffer_store c' = buffer_store c /\
  attached_shaders c' = attached_shaders c.
Proof.
  cbv zeta. revert k l w.
  induction n as [ | n IH]; intros k l w.
  - cbn. auto 10.
  - change (render_loop env (S (S n)) k l w)
      with (render_loop env (S n) (S k) (fst (frame env k l
              (snd (call (glfwWindowShouldClose (mainWindow l)) w))))
              (snd (frame env k l
                 (snd (call (glfwWindowShouldClose (mainWindow l)) w))))).
    destruct (IH (S k)
                (fst (frame env k l
                   (snd (call (glfwWindowShouldClose (mainWindow l)) w))))
                (snd (frame env k l
                   (snd (call (glfwWindowShouldClose (mainWindow l)) w)))))
      as (H1 & H2 & H3 & H4 & H5 & H6).
    rewrite H4, H5, H6. auto 10.
Qed.

(** ** The local variables of the loop *)

Lemma frame_locals env k l w :
  let l' := fst (frame env k l w) in
  mainWindow l' = mainWindow l /\ projection l' = projection l /\
  bufferWidth l' = to_int (fst (window_size env k)) /\
  bufferHeight l' = to_int (snd (window_size env k)).
Proof. cbn. auto. Qed.

(** X8: the projection matrix is never recomputed: after any number of
    frames the loop still holds the projection it started with, while the
    buffer size it holds (and sets the viewport to) is the size the window
    reported in the last frame. *)
Theorem render_loop_keeps_projection env n k l w :
  let l' := fst (render_loop env (S n) k l w) in
  projection l' = projection l /\ mainWindow l' = mainWindow l /\
  bufferWidth l' = to_int (fst (window_size env (k + n))) /\
  bufferHeight l' = to_int (snd (window_size env (k + n))) /\
  In (glViewport 0 0 (bufferWidth l') (bufferHeight l'))
     (trace (snd (render_loop env (S n) k l w))).
Proof.
  cbv zeta. revert k l w.
  induction n as [ | n IH]; intros k l w.
  - rewrite Nat.add_0_r. cbn. auto 40.
  - change (render_loop env (S (S n)) k l w)
      with (render_loop env (S n) (S k) (fst (frame env k l
              (snd (call (glfwWindowShouldClose (mainWindow l)) w))))
              (snd (frame env k l
                 (snd (call (glfwWindowShouldClose (mainWindow l)) w))))).
    replace (k + S n)%nat with (S k + n)%nat by lia.
    destruct (IH (S k)
                (fst (frame env k l
                   (snd (call (glfwWindowShouldClose (mainWindow l)) w))))
                (snd (frame env k l
                   (snd (call (glfwWindowShouldClose (mainWindow l)) w)))))
      as (H1 & H2 & H3 & H4 & H5).
    rewrite H1, H2. auto.
Qed.

(** ** The angle and the phase never reach the geometry *)

Lemma frame_locals_offset_part env k l w1 w2 :
  offset_part (anim w1) = offset_part (anim w2) ->
  fst (frame env k l w1) = fst (frame env k l w2) /\
  offset_part (anim (snd (frame env k l w1)))
  = offset_part (anim (snd (frame env k l w2))).
Proof.
  intros H. split.
  - unfold offset_part in H. injection H as Hd Ho Hm Hi.
    cbn. rewrite Hd, Ho, Hi. reflexivity.
  - rewrite !frame_anim, !offset_part_update. now rewrite H.
Qed.

(** X9: the model matrix, the projection and the buffer size the loop ends
    with do not depend on the angle or on the colour phase: two runs of the
    loop from worlds that agree on the offset, its direction, limit and
    increment end with the same local variables. *)
Theorem model_matrix_ignores_angle_and_phase env n k l w1 w2 :
  offset_part (anim w1) = offset_part (anim w2) ->
  fst (render_loop env n k l w1) = fst (render_loop env n k l w2).
Proof.
  revert k l w1 w2.
  induction n as [ | n IH]; intros k l w1 w2 H; [reflexivity | ].
  cbn [render_loop]. unfold bind at 1 2 3 4. cbn [call fst snd].
  set (u1 := mkWorld _ _ _ _ _). set (u2 := mkWorld _ _ _ _ _).
  assert (Hu : offset_part (anim u1) = offset_part (anim u2)) by exact H.
  destruct (frame_locals_offset_part env k l u1 u2 Hu) as [Hl Ha].
  rewrite Hl. apply IH. exact Ha.
Qed.

Lemma model_matrix_ignores_angle_and_phase_witness :
  model (fst (render_loop (sample_env 1 3) 3 0 sample_locals init_world))
  = model (fst (render_loop (sample_env 1 3) 3 0 sample_locals spun_world)).
Proof.
  rewrite (model_matrix_ignores_angle_and_phase
             (sample_env 1 3) 3 0 sample_locals init_world spun_world eq_refl).
  reflexivity.
Defined.

(** ** The oscillation repeats *)

(** X10: from frame 17 on, the offset and its direction repeat exactly
    every 268 frames: binary32 rounding makes the oscillation settle on a
    cycle, with no drift however long the program runs. *)
Theorem offset_is_periodic n :
  offset_part (frames_anim (17 + n + 268) init_anim)
  = offset_part (frames_anim (17 + n) init_anim).
Proof.
  rewrite !offset_part_frames.
  apply (iter_plus_period offset_step init_anim 17 268);
    [exact offset_orbit_closes | lia].
Qed.

(** ** What the loop prints *)







(** ** A whole run *)




(** ** The buffers after the upload *)

(** X13: when the library hands out three names that are not 0, the two
    buffers distinct, [createTriangle] leaves the 12 indices in the index
    buffer and the 12 coordinates in the vertex buffer, touches no other
    buffer, and the vertex array object it configured ends without an
    element array buffer: the index buffer was unbound while the object was
    still bound, which is why every frame binds it again before drawing. *)
Theorem createTriangle_fills_both_buffers env w :
  sane_names env -> to_unsigned (gen_vertex_buffer env) <> 0 ->
  let w' := snd (createTriangle env w) in
  let c' := context w' in
  buffer_store c' (ibo (handles w')) = Some (UIntData indices) /\
  buffer_store c' (vbo (handles w')) = Some (FloatData vertices) /\
  (forall b, b <> ibo (handles w') -> b <> vbo (handles w') ->
             buffer_store c' b = buffer_store (context w) b) /\
  vao_element_buffer c' (vao (handles w')) = 0 /\
  In (glBufferData GL_ARRAY_BUFFER 48 (FloatData vertices) GL_STATIC_DRAW)
     (trace w') /\
  In (glVertexAttribPointer 0 3 GL_FLOAT false 0 0) (trace w').
Proof.
  intros (Hv & Hi & Hiv) Hb. cbv zeta.
  destruct (createTriangle_store env w (conj Hv (conj Hi Hiv)))
    as (_ & _ & Hs).
  split; [exact Hs | ].
  apply Z.eqb_neq in Hv, Hb. assert (Hi' := Hi). apply Z.eqb_neq in Hi'.
  cbn. unfold element_array_buffer_binding. cbn.
  rewrite !Hv, !update_same, Hi', Hb, !update_same.
  split; [reflexivity | ].
  split.
  { intros b Hbi Hbv. now rewrite !update_other by assumption. }
  split; [reflexivity | ].
  split; auto 12.
Qed.

Lemma createTriangle_fills_both_buffers_witness :
  buffer_store (context (snd (createTriangle (sample_env 1 2) init_world)))
               (vbo (handles (snd (createTriangle (sample_env 1 2)
                                     init_world))))
  = Some (FloatData vertices).
Proof.
  refine (proj1 (proj2 (createTriangle_fills_both_buffers
                          (sample_env 1 2) init_world _ _)));
    first [ vm_compute; discriminate
          | vm_compute; repeat split; discriminate ].
Defined.

(** ** Where the colour phase stops *)

Lemma shr_1_r mrs : 0 <= shr_m mrs -> shr_r (shr_1 mrs) = Z.odd (shr_m mrs).
Proof.
  destruct mrs as [m r s]. cbn [shr_m]. intros Hm.
  destruct m as [ | [p | p | ] | p]; try reflexivity; lia.
Qed.

(** The round bit after a shift by [n] places is bit [n - 1]. *)
Lemma iter_pos_shr_r n : forall mrs,
  0 <= shr_m mrs ->
  shr_r (iter_pos shr_1 n mrs) = Z.odd (shr_m mrs / 2 ^ (Zpos n - 1)).
Proof.
  induction n as [n IH | n IH | ]; intros mrs Hm; cbn [iter_pos].
  - assert (H1 : 0 <= shr_m (shr_1 mrs)).
    { rewrite shr_1_m by assumption. apply Z.div_pos; lia. }
    assert (H2 : 0 <= shr_m (iter_pos shr_1 n (shr_1 mrs))).
    { rewrite iter_pos_shr_m by assumption. apply Z.div_pos; lia. }
    rewrite IH, iter_pos_shr_m, shr_1_m by assumption.
    rewrite !Z.div_div by lia. f_equal. f_equal.
    replace (Zpos n~1 - 1) with (1 + (Zpos n + (Zpos n - 1))) by lia.
    rewrite !Z.pow_add_r by lia. reflexivity.
  - assert (H2 : 0 <= shr_m (iter_pos shr_1 n mrs)).
    { rewrite iter_pos_shr_m by assumption. apply Z.div_pos; lia. }
    rewrite IH, iter_pos_shr_m by assumption.
    rewrite Z.div_div by lia. f_equal. f_equal.
    rewrite <- Z.pow_add_r by lia. f_equal. lia.
  - rewrite shr_1_r by assumption. now rewrite Z.div_1_r.
Qed.

(** Rounding a long mantissa whose round bit is 0 truncates it. *)
Lemma round_aux_down M e n :
  Zpos (digits2_pos M) = 24 + Zpos n ->
  -149 <= e -> e + Zpos n <= 104 ->
  Z.odd (Zpos M / 2 ^ (Zpos n - 1)) = false ->
  exists m', Zpos m' = Zpos M / 2 ^ Zpos n /\
    binary_round_aux F32.prec F32.emax false (Zpos M) e loc_Exact
    = S754_finite false m' (e + Zpos n).
Proof.
  intros Hd He Hmax Hbit.
  assert (Hshift : F32.fexp (Zdigits2 (Zpos M) + e) - e = Zpos n).
  { cbn [Zdigits2]. rewrite Hd, fexp_eq. lia. }
  unfold binary_round_aux. rewrite (shr_fexp_shift _ _ _ Hshift).
  set (mrs := iter_pos shr_1 n _).
  assert (Hm1 : shr_m mrs = Zpos M / 2 ^ Zpos n).
  { unfold mrs. rewrite iter_pos_shr_m; cbn [shr_m]; [reflexivity | lia]. }
  assert (Hr : shr_r mrs = false).
  { unfold mrs. rewrite iter_pos_shr_r; cbn [shr_m]; [exact Hbit | lia]. }
  pose proof (digits2_pos_bounds M) as [Dl Du]. rewrite Hd in Dl, Du.
  assert (Hn0 : 0 < 2 ^ Zpos n) by (apply Z.pow_pos_nonneg; lia).
  assert (Hlo : 2 ^ 23 <= shr_m mrs).
  { rewrite Hm1. apply Z.div_le_lower_bound; [lia | ].
    replace (24 + Zpos n - 1) with (Zpos n + 23) in Dl by lia.
    now rewrite Z.pow_add_r in Dl by lia. }
  assert (Hhi : shr_m mrs < 2 ^ 24).
  { rewrite Hm1. apply Z.div_lt_upper_bound; [lia | ].
    replace (24 + Zpos n) with (Zpos n + 24) in Du by lia.
    now rewrite Z.pow_add_r in Du by lia. }
  assert (Hround : round_nearest_even (shr_m mrs) (loc_of_shr_record mrs)
                   = shr_m mrs).
  { destruct mrs as [m1 r s]. cbn [shr_r] in Hr. subst r.
    destruct s; reflexivity. }
  rewrite Hround. clearbody mrs.
  change (2 ^ 23) with 8388608 in Hlo. change (2 ^ 24) with 16777216 in Hhi.
  destruct (shr_m mrs) as [ | p | p] eqn:Hp; try lia.
  assert (Hdp : Zpos (digits2_pos p) = 24).
  { apply digits2_pos_unique. change (2 ^ (24 - 1)) with 8388608.
    change (2 ^ 24) with 16777216. lia. }
  rewrite shr_fexp_keep.
  2:{ cbn [Zdigits2]. rewrite Hdp, fexp_eq. lia. }
  cbn [shr_m].
  replace (e + Zpos n <=? F32.emax - F32.prec) with true
    by (symmetry; apply Z.leb_le; cbn; lia).
  exists p. split; [exact Hm1 | reflexivity].
Qed.

(** Adding the phase increment to a float of exponent [-13] or more, that
    is to a float that is at least 1024, gives the float back. *)
Lemma add_phase_increment_absorbed m e :
  bounded F32.prec F32.emax m e = true -> -13 <= e ->
  F32.add (S754_finite false m e) phase_increment = S754_finite false m e.
Proof.
  intros Hb He.
  pose proof (bounded_range m e Hb) as [[_ He104] _].
  pose proof (bounded_mantissa m e Hb) as [Hm24 Hm23].
  specialize (Hm23 ltac:(lia)).
  change (2 ^ 24) with 16777216 in Hm24. change (2 ^ 23) with 8388608 in Hm23.
  change phase_increment with (S754_finite false 13743895 (-38)).
  unfold F32.add, SFadd. cbn [cond_Zopp].
  replace (Z.min e (-38)) with (-38) by lia.
  pose proof (shl_align_fst m e (-38) ltac:(lia)) as Hax.
  rewrite (shl_align_keep 13743895 (-38) (-38)) by lia. cbn [fst].
  set (ax := fst (shl_align m e (-38))) in *.
  cbn [Z.add binary_normalize].
  destruct (e - -38) as [ | n | n] eqn:Hn; try lia.
  assert (Hpn : 2 ^ 25 <= 2 ^ Zpos n) by (apply pow2_le_mono; lia).
  change (2 ^ 25) with 33554432 in Hpn.
  assert (HM : Zpos (ax + 13743895) = Zpos m * 2 ^ Zpos n + 13743895)
    by (rewrite Pos2Z.inj_add, Hax; reflexivity).
  assert (Hd : Zpos (digits2_pos (ax + 13743895)) = 24 + Zpos n).
  { apply digits2_pos_unique. rewrite HM.
    replace (24 + Zpos n - 1) with (23 + Zpos n) by lia.
    rewrite !Z.pow_add_r by lia.
    change (2 ^ 23) with 8388608. change (2 ^ 24) with 16777216. nia. }
  unfold binary_round.
  rewrite shl_align_keep by (rewrite Hd, fexp_eq; lia).
  destruct (round_aux_down (ax + 13743895) (-38) n Hd ltac:(lia) ltac:(lia))
    as (m' & Hm' & Hr).
  { rewrite HM.
    assert (Hp2 : 2 ^ Zpos n = 2 * 2 ^ (Zpos n - 1))
      by (rewrite <- Z.pow_succ_r by lia; f_equal; lia).
    rewrite Hp2, Z.mul_assoc, Z.div_add_l, Z.div_small.
    - rewrite Z.add_0_r, Z.odd_mul. cbn. apply andb_false_r.
    - assert (2 ^ 24 <= 2 ^ (Zpos n - 1)) by (apply pow2_le_mono; lia).
      change (2 ^ 24) with 16777216 in H. lia.
    - assert (0 < 2 ^ (Zpos n - 1)) by (apply Z.pow_pos_nonneg; lia). lia. }
  rewrite Hr. f_equal; [ | lia].
  apply Pos2Z.inj. rewrite Hm', HM, Z.div_add_l, Z.div_small; lia.
Qed.

(** X14: binary32 addition absorbs the increment of the colour phase once
    the phase is 1024 or more: from such a phase on, no number of frames
    changes the phase any more, and the clear colour stays the same. *)
Theorem phase_stops_at_1024 a n :
  posfin (phase_i a) -> F32.val (F32.of_Z 1024) <= F32.val (phase_i a) ->
  phase_i (frames_anim n a) = phase_i a /\
  clear_color (phase_i (frames_anim n a)) = clear_color (phase_i a).
Proof.
  intros (m & e & Hi & Hb) Hval.
  assert (He : -13 <= e).
  { rewrite Hi in Hval. cbn [F32.val cond_Zopp] in Hval.
    destruct (Z_lt_le_dec e (-13)) as [Hlt | ]; [exfalso | assumption].
    pose proof (bounded_range m e Hb) as [[He149 _] _].
    pose proof (bounded_mantissa m e Hb) as [Hm24 _].
    assert (2 ^ (e + 149) <= 2 ^ 135) by (apply pow2_le_mono; lia).
    assert (0 < 2 ^ (e + 149)) by (apply Z.pow_pos_nonneg; lia).
    eval_const (F32.val (F32.of_Z 1024)). eval_const (2 ^ 135).
    eval_const (2 ^ 24). nia. }
  assert (Hn : phase_i (frames_anim n a) = phase_i a).
  { induction n as [ | n IH]; [reflexivity | ].
    cbn [frames_anim].
    change (phase_i (update_anim (frames_anim n a)))
      with (F32.add (phase_i (frames_anim n a)) phase_increment).
    rewrite IH, Hi. now apply add_phase_increment_absorbed. }
  split; [exact Hn | now rewrite Hn].
Qed.

Lemma phase_stops_at_1024_witness :
  phase_i (frames_anim 5 (mkAnim true F32.zero (F32.of_Z 1) (F32.literal 15 1000)
                                 F32.zero (F32.of_Z 1024)))
  = F32.of_Z 1024.
Proof.
  refine (proj1 (phase_stops_at_1024
                   (mkAnim true F32.zero (F32.of_Z 1) (F32.literal 15 1000)
                           F32.zero (F32.of_Z 1024)) 5 _ _)).
  - exists 8388608%positive, (-13). split; reflexivity.
  - vm_compute. discriminate.
Defined.

(** ** The model matrix compounds *)


